(** * EEG signal-processing core: conditioning, STFT, band powers, features

    A shallow embedding of the numeric core of the repository
    ([lib/preprocessing.ts], [lib/spectrogram.ts], [lib/onnx-inference.ts]
    and [hooks/use-spectrogram.ts]) together with the properties the
    specification states about it.

    Numbers.  A JavaScript [number] is modelled by [number] below: the
    three special values of ECMAScript arithmetic ([NaN], [+Infinity],
    [-Infinity]) and the finite values, which are kept as exact rationals.
    Division by zero, [0/0], [Infinity - Infinity] and comparisons with
    [NaN] behave as in ECMAScript; rounding, overflow and the sign of zero
    are not modelled.  In the same way a store into a [Float32Array] keeps
    the value unchanged.  Quantities that the code only ever uses as
    array indices, lengths and loop counters are integers ([nat], [Z]);
    [Math.floor] of a quotient of such integers is [Z.div] or [Qfloor].

    The transcendental functions of [Math] are implementation-approximated
    in ECMAScript; they are an interface ([MathLib]) here and every theorem
    holds for each implementation of it. *)

From Stdlib Require Import ZArith QArith Qround Qabs Lia Lqa.
From Stdlib Require Import String.
From stdpp Require Import base list.

Local Open Scope Z_scope.

(** ** Numbers *)

Inductive number : Type :=
  | NaN
  | PInf
  | NInf
  | Fin (q : Q).

Definition of_Z (z : Z) : number := Fin (inject_Z z).
Definition of_nat (n : nat) : number := of_Z (Z.of_nat n).

(** The infinity (or [NaN]) with the sign carried by a comparison with zero. *)
Definition inf_of (c : comparison) : number :=
  match c with
  | Gt => PInf
  | Lt => NInf
  | Eq => NaN
  end.

Module Num.

Definition add (x y : number) : number :=
  match x, y with
  | NaN, _ | _, NaN => NaN
  | PInf, NInf | NInf, PInf => NaN
  | PInf, _ | _, PInf => PInf
  | NInf, _ | _, NInf => NInf
  | Fin a, Fin b => Fin (Qred (a + b))
  end.

Definition sub (x y : number) : number :=
  match x, y with
  | NaN, _ | _, NaN => NaN
  | PInf, PInf | NInf, NInf => NaN
  | PInf, _ | _, NInf => PInf
  | NInf, _ | _, PInf => NInf
  | Fin a, Fin b => Fin (Qred (a - b))
  end.

Definition mul (x y : number) : number :=
  match x, y with
  | NaN, _ | _, NaN => NaN
  | PInf, PInf | NInf, NInf => PInf
  | PInf, NInf | NInf, PInf => NInf
  | PInf, Fin b | Fin b, PInf => inf_of (b ?= 0)%Q
  | NInf, Fin b | Fin b, NInf => inf_of (CompOpp (b ?= 0)%Q)
  | Fin a, Fin b => Fin (Qred (a * b))
  end.

(** [x / y]; a finite zero divisor counts as [+0]. *)
Definition div (x y : number) : number :=
  match x, y with
  | NaN, _ | _, NaN => NaN
  | (PInf | NInf), (PInf | NInf) => NaN
  | Fin _, (PInf | NInf) => Fin 0
  | PInf, Fin b => match (b ?= 0)%Q with Lt => NInf | _ => PInf end
  | NInf, Fin b => match (b ?= 0)%Q with Lt => PInf | _ => NInf end
  | Fin a, Fin b =>
      if Qeq_bool b 0 then inf_of (a ?= 0)%Q else Fin (Qred (a / b))
  end.

(** [x < y] *)
Definition ltb (x y : number) : bool :=
  match x, y with
  | NaN, _ | _, NaN => false
  | _, NInf | PInf, _ => false
  | NInf, _ | _, PInf => true
  | Fin a, Fin b => match (a ?= b)%Q with Lt => true | _ => false end
  end.

(** [x <= y] *)
Definition leb (x y : number) : bool :=
  match x, y with
  | NaN, _ | _, NaN => false
  | NInf, _ | _, PInf => true
  | _, NInf | PInf, _ => false
  | Fin a, Fin b => match (a ?= b)%Q with Gt => false | _ => true end
  end.

(** [x >= y] *)
Definition geb (x y : number) : bool := leb y x.

(** [x === y] *)
Definition eqb (x y : number) : bool :=
  match x, y with
  | PInf, PInf | NInf, NInf => true
  | Fin a, Fin b => Qeq_bool a b
  | _, _ => false
  end.

(** Truthiness of a number, as [||] and [if] test it. *)
Definition truthy (x : number) : bool :=
  match x with
  | NaN => false
  | Fin a => negb (Qeq_bool a 0)
  | _ => true
  end.

End Num.

Declare Scope num_scope.
Delimit Scope num_scope with num.
Bind Scope num_scope with number.
Infix "+" := Num.add : num_scope.
Infix "-" := Num.sub : num_scope.
Infix "*" := Num.mul : num_scope.
Infix "/" := Num.div : num_scope.

(** *** The exact part of [Math] *)

Definition Math_abs (x : number) : number :=
  match x with
  | NaN => NaN
  | PInf | NInf => PInf
  | Fin a => Fin (Qabs a)
  end.

Definition Math_floor (x : number) : number :=
  match x with
  | Fin a => of_Z (Qfloor a)
  | _ => x
  end.

(** One step of the scan of [Math.max]: [NaN] is absorbing. *)
Definition max_step (highest x : number) : number :=
  match highest, x with
  | NaN, _ | _, NaN => NaN
  | _, _ => if Num.ltb highest x then x else highest
  end.

Definition min_step (lowest x : number) : number :=
  match lowest, x with
  | NaN, _ | _, NaN => NaN
  | _, _ => if Num.ltb x lowest then x else lowest
  end.

(** [Math.max(...args)] and [Math.min(...args)]. *)
Definition Math_max (args : list number) : number := foldl max_step NInf args.
Definition Math_min (args : list number) : number := foldl min_step PInf args.

(** [Math.pow(x, 2)], exact. *)
Definition Math_pow2 (x : number) : number := (x * x)%num.

(** ** Arrays, loops and completions *)

(** [for (let i = lo; i < hi; i++) body], threading the state [s]. *)
Definition for_loop {St : Type} (lo hi : nat) (body : nat → St → St) (s : St) : St :=
  foldl (λ s i, body i s) s (seq lo (hi - lo)).

(** [data[j]] used as a number: a read outside the array gives [undefined],
    which arithmetic turns into [NaN]. *)
Definition array_get (data : list number) (j : Z) : number :=
  if j <? 0 then NaN else default NaN (data !! Z.to_nat j).

(** [for (let j = start; j < end; j++) sum += data[j]] from [sum = 0]. *)
Definition sum_range (data : list number) (start end_ : Z) : number :=
  foldl (λ sum j, (sum + array_get data j)%num) (Fin 0) (seqZ start (end_ - start)).

(** [data.reduce((sum, val) => sum + val, 0)] *)
Definition reduce_sum (data : list number) : number :=
  foldl Num.add (Fin 0) data.

(** [data.slice(start, end)] for integer arguments: negative positions count
    from the end, and both are clamped to the array. *)
Definition slice {A : Type} (data : list A) (start end_ : Z) : list A :=
  let len := Z.of_nat (length data) in
  let k := if start <? 0 then Z.max (len + start) 0 else Z.min start len in
  let final := if end_ <? 0 then Z.max (len + end_) 0 else Z.min end_ len in
  take (Z.to_nat (final - k)) (drop (Z.to_nat k) data).

(** The only exception the modelled code can raise is the runtime's
    [RangeError: Invalid array length]. *)
Inductive error : Type :=
  | RangeError.

Inductive completion (A : Type) : Type :=
  | Normal (a : A)
  | Throw (e : error).
Arguments Normal {A} a.
Arguments Throw {A} e.

#[global] Instance completion_ret : MRet completion := λ A a, Normal a.
#[global] Instance completion_bind : MBind completion := λ A B k c,
  match c with
  | Normal a => k a
  | Throw e => Throw e
  end.

Definition max_array_length : Z := 2 ^ 32 - 1.

(** [ToLength(len)]: [NaN] and negative values give 0, fractions are
    truncated, the result is capped at [2^53 - 1]. *)
Definition ToLength (len : number) : Z :=
  match len with
  | NaN | NInf => 0
  | PInf => 2 ^ 53 - 1
  | Fin a => Z.min (Z.max (Qfloor a) 0) (2 ^ 53 - 1)
  end.

(** [Array.from({ length: len }, (_, i) => f i)] *)
Definition Array_from {A : Type} (len : number) (f : nat → A) : completion (list A) :=
  let n := ToLength len in
  if n <=? max_array_length then Normal (map f (seq 0 (Z.to_nat n)))
  else Throw RangeError.

(** [n] is an integer in [[0, 2^32 - 1]]: what [Array(n)] accepts. *)
Definition array_length_of (n : number) : option nat :=
  match n with
  | Fin a =>
      if Qeq_bool a (inject_Z (Qfloor a)) && (0 <=? Qfloor a) && (Qfloor a <=? max_array_length)
      then Some (Z.to_nat (Qfloor a)) else None
  | _ => None
  end.

(** [Array(n).fill(v)] *)
Definition Array_fill {A : Type} (n : number) (v : A) : completion (list A) :=
  match array_length_of n with
  | Some len => Normal (replicate len v)
  | None => Throw RangeError
  end.

(** ** lib/preprocessing.ts *)

Module EEGPreprocessor.

(** [windowSize], [start] and [end] of [bandpassFilter], for output index [i]
    of a buffer of [len] samples. *)
Definition windowSize (sfreq : Q) : Z := Qfloor (sfreq / 10).
Definition start (sfreq : Q) (i : nat) : Z :=
  Z.max 0 (Z.of_nat i - windowSize sfreq / 2).
Definition end_ (len : nat) (sfreq : Q) (i : nat) : Z :=
  Z.min (Z.of_nat len) (Z.of_nat i + windowSize sfreq / 2).

(** [bandpassFilter]: the cut-offs are accepted and unused; [filtered[i] = v]
    writes one past the end of [filtered], which appends. *)
Definition bandpassFilter (data : list number) (sfreq : Q)
    (lowCutoff highCutoff : number) : list number :=
  for_loop 0 (length data) (λ i filtered,
    let start := start sfreq i in
    let end_ := end_ (length data) sfreq i in
    let sum := sum_range data start end_ in
    filtered ++ [(sum / of_Z (end_ - start))%num]) [].

Definition removeDCOffset (data : list number) : list number :=
  let mean := (reduce_sum data / of_nat (length data))%num in
  map (λ val, (val - mean)%num) data.

Definition normalize (data : list number) : list number :=
  let max := Math_max (map Math_abs data) in
  map (λ val, (val / max)%num) data.

Record config : Type := Config {
  lowCutoff : option number;
  highCutoff : option number
}.

(** [field || dflt] *)
Definition or_default (field : option number) (dflt : number) : number :=
  match field with
  | Some v => if Num.truthy v then v else dflt
  | None => dflt
  end.

Definition preprocess (data : list number) (sfreq : Q) (cfg : config) : list number :=
  let processed := data in
  let processed := removeDCOffset processed in
  let processed :=
    bandpassFilter processed sfreq
      (or_default (lowCutoff cfg) (Fin 1)) (or_default (highCutoff cfg) (Fin 50)) in
  let processed := normalize processed in
  processed.

End EEGPreprocessor.

(** The specification's [condition(samples, samplingRate, lowCutoffHz,
    highCutoffHz)] is [preprocess]; the code has no [throw] on this path. *)
Definition condition (samples : list number) (samplingRate : Q)
    (cfg : EEGPreprocessor.config) : completion (list number) :=
  Normal (EEGPreprocessor.preprocess samples samplingRate cfg).

Definition default_config : EEGPreprocessor.config :=
  EEGPreprocessor.Config None None.

(** ** The approximated part of [Math] *)

Class MathLib : Type := {
  Math_PI : number;
  Math_cos : number → number;
  Math_sin : number → number;
  Math_sqrt : number → number;
  Math_log10 : number → number
}.

(** ** types/eeg.ts *)

Record EEGData : Type := {
  data : list number;
  sfreq : Q;
  channel_name : string;
  duration : option number
}.

Record SpectrogramData : Type := {
  frequencies : list number;
  times : list number;
  power : list (list number)
}.

(** ** lib/onnx-inference.ts: the feature vector *)

Module ONNXModelInference.
Section WithMath.
Context {M : MathLib}.

(** Frequency probed by feature [i]: [((i - 6) / 58) * 50]. *)
Definition feature_freq (i : nat) : number :=
  (of_Z (Z.of_nat i - 6) / Fin 58 * Fin 50)%num.

(** Window of feature [i] over a buffer of [len] samples. *)
Definition windowStart (len : Z) (i : nat) : Z :=
  Qfloor (inject_Z (Z.of_nat i - 64) / 64 * inject_Z len).
Definition windowEnd (len : Z) (i : nat) : Z :=
  Z.min (windowStart len i + len / 64) len.

Definition prepareInput (data : list number) : list number :=
  let features := replicate 128 (Fin 0) in
  let len := of_nat (length data) in
  let mean := (reduce_sum data / len)%num in
  let variance :=
    (foldl (λ sum val, sum + Math_pow2 (val - mean)) (Fin 0) data / len)%num in
  let std := Math_sqrt variance in
  let min := Math_min data in
  let max := Math_max data in
  let range := (max - min)%num in
  let features := <[0%nat := mean]> features in
  let features := <[1%nat := std]> features in
  let features := <[2%nat := variance]> features in
  let features := <[3%nat := min]> features in
  let features := <[4%nat := max]> features in
  let features := <[5%nat := range]> features in
  let features :=
    for_loop 6 64 (λ i features,
      let freq := feature_freq i in
      let power :=
        for_loop 0 (length data) (λ j power,
          (power + Math_cos (Fin 2 * Math_PI * freq * of_nat j / Fin 250)
                   * array_get data (Z.of_nat j))%num) (Fin 0) in
      <[i := (power / len)%num]> features) features in
  let features :=
    for_loop 64 128 (λ i features,
      let windowStart := windowStart (Z.of_nat (length data)) i in
      let windowEnd := windowEnd (Z.of_nat (length data)) i in
      let windowMean := sum_range data windowStart windowEnd in
      <[i := (windowMean / of_Z (windowEnd - windowStart))%num]> features) features in
  features.

(** The part of [predict] that builds the classifier input: the buffer of
    the record goes to [prepareInput] as it is, its rate is not read. *)
Definition predict_features (eegData : EEGData) : list number :=
  prepareInput (data eegData).

End WithMath.
End ONNXModelInference.

(** The specification's [extract(samples, samplingRate)]. *)
Definition extract {M : MathLib} (samples : list number) (samplingRate : Q)
    : completion (list number) :=
  Normal (ONNXModelInference.predict_features
            {| data := samples; sfreq := samplingRate;
               channel_name := EmptyString; duration := None |}).

(** ** lib/spectrogram.ts *)

Module SpectrogramGenerator.
Section WithMath.
Context {M : MathLib}.

Definition hopSize (windowSize : nat) (overlap : Q) : Z :=
  Qfloor (inject_Z (Z.of_nat windowSize) * (1 - overlap)).

Definition numWindows (len : nat) (windowSize : nat) (overlap : Q) : number :=
  (Math_floor (of_Z (Z.of_nat len - Z.of_nat windowSize) / of_Z (hopSize windowSize overlap))
   + Fin 1)%num.

Definition freqBins (windowSize : nat) : Z := Z.of_nat windowSize / 2 + 1.

(** [power[freqIdx][windowIdx] = v] *)
Definition matrix_set (power : list (list number)) (freqIdx windowIdx : nat) (v : number)
    : list (list number) :=
  match power !! freqIdx with
  | Some row => <[freqIdx := <[windowIdx := v]> row]> power
  | None => power
  end.

(** The Hann-weighted window: [windowData.map((val, i) => val * (0.5 - 0.5 * cos ...))]. *)
Definition hann (windowSize : nat) (windowData : list number) : list number :=
  imap (λ i val,
    (val * (Fin (1 # 2) - Fin (1 # 2)
              * Math_cos (Fin 2 * Math_PI * of_nat i / of_Z (Z.of_nat windowSize - 1))))%num)
    windowData.

(** The accumulation loop of one DFT bin, giving [(real, imag)]. *)
Definition dft_bin (windowSize : nat) (windowed : list number) (freqIdx : nat)
    : number * number :=
  for_loop 0 (length windowed) (λ n acc,
    let angle :=
      (Fin (-2) * Math_PI * of_nat freqIdx * of_nat n / of_nat windowSize)%num in
    ((acc.1 + array_get windowed (Z.of_nat n) * Math_cos angle)%num,
     (acc.2 + array_get windowed (Z.of_nat n) * Math_sin angle)%num))
    (Fin 0, Fin 0).

Definition epsilon : number := Fin (1 # 10000000000).

Definition generateSpectrogram (data : list number) (sfreq : Q)
    (windowSize : nat) (overlap : Q) : completion SpectrogramData :=
  let hopSize := hopSize windowSize overlap in
  let numWindows := numWindows (length data) windowSize overlap in
  let freqBins := freqBins windowSize in
  frequencies ← Array_from (of_Z freqBins)
                  (λ i, (of_nat i * Fin sfreq / of_nat windowSize)%num);
  times ← Array_from numWindows (λ i, (of_nat i * of_Z hopSize / Fin sfreq)%num);
  rows ← Array_fill (of_Z freqBins) tt;
  power ← mapM (λ _, Array_fill numWindows (Fin 0)) rows;
  (* [Array(numWindows)] has succeeded: [numWindows] is the integer
     [times.length], the bound of the loop over [windowIdx] *)
  let power :=
    for_loop 0 (length times) (λ windowIdx power,
      let start := Z.of_nat windowIdx * hopSize in
      let windowData := slice data start (start + Z.of_nat windowSize) in
      let windowed := hann windowSize windowData in
      for_loop 0 (Z.to_nat freqBins) (λ freqIdx power,
        let '(real, imag) := dft_bin windowSize windowed freqIdx in
        matrix_set power freqIdx windowIdx
          (Math_log10 (real * real + imag * imag + epsilon)%num)) power) power in
  mret {| frequencies := frequencies; times := times; power := power |}.

End WithMath.
End SpectrogramGenerator.

(** The specification's [analyze]. *)
Definition analyze {M : MathLib} (samples : list number) (samplingRate : Q)
    (windowSize : nat) (overlapFraction : Q) : completion SpectrogramData :=
  SpectrogramGenerator.generateSpectrogram samples samplingRate windowSize overlapFraction.

(** ** hooks/use-spectrogram.ts: band powers *)

Record BandPowers : Type := {
  delta : number;
  theta : number;
  alpha : number;
  beta : number;
  gamma : number
}.

(** [xs.filter((x, idx) => p idx x)], with [idx] counted from [from]. *)
Fixpoint filteri {A : Type} (p : nat → A → bool) (from : nat) (xs : list A) : list A :=
  match xs with
  | [] => []
  | x :: xs' => if p from x then x :: filteri p (S from) xs' else filteri p (S from) xs'
  end.

(** [xs.includes(i)] *)
Definition includes (xs : list nat) (i : nat) : bool := existsb (Nat.eqb i) xs.

Definition getBandPower (s : SpectrogramData) (minFreq maxFreq : number) : number :=
  let bandIndices :=
    map snd
      (List.filter (λ fi : number * nat, Num.geb fi.1 minFreq && Num.leb fi.1 maxFreq)
         (imap (λ idx freq, (freq, idx)) (frequencies s))) in
  if (length bandIndices =? 0)%nat then Fin 0
  else
    let bandPowers := concat (filteri (λ freqIdx _, includes bandIndices freqIdx) 0 (power s)) in
    (reduce_sum bandPowers / of_nat (length bandPowers))%num.

Definition frequencyBands (s : SpectrogramData) : BandPowers :=
  {| delta := getBandPower s (Fin (1 # 2)) (Fin 4);
     theta := getBandPower s (Fin 4) (Fin 8);
     alpha := getBandPower s (Fin 8) (Fin 13);
     beta := getBandPower s (Fin 13) (Fin 30);
     gamma := getBandPower s (Fin 30) (Fin 100) |}.

(** The specification's [aggregate]. *)
Definition aggregate (s : SpectrogramData) : BandPowers := frequencyBands s.

Import EEGPreprocessor ONNXModelInference SpectrogramGenerator.

(** ** The vocabulary of the specification

    Definitions that follow the words of the specification; the theorems
    compare the code with them. *)

(** Arithmetic mean: the sum divided by the number of samples. *)
Definition mean (xs : list number) : number :=
  (reduce_sum xs / of_nat (length xs))%num.

(** Population variance: the mean squared deviation from the mean. *)
Definition variance (xs : list number) : number :=
  mean (map (λ x, Math_pow2 (x - mean xs)) xs).

(** The samples with indices in [[a, b)]. *)
Definition window (xs : list number) (a b : Z) : list number :=
  take (Z.to_nat (b - a)) (drop (Z.to_nat a) xs).

(** [lo <= f <= hi] *)
Definition in_band (lo hi f : number) : bool := Num.leb lo f && Num.leb f hi.

(** The rows of the power matrix whose frequency-axis value lies in the band. *)
Definition band_rows (s : SpectrogramData) (lo hi : number) : list (list number) :=
  map snd (List.filter (λ fr : number * list number, in_band lo hi fr.1)
             (zip (frequencies s) (power s))).

(** Mean of all the values of those rows; 0 for a band without frequency bin. *)
Definition band_mean (s : SpectrogramData) (lo hi : number) : number :=
  if existsb (in_band lo hi) (frequencies s)
  then mean (concat (band_rows s lo hi))
  else Fin 0.

Section Vocabulary.
Context {M : MathLib}.

(** [Σ_j cos(2π·f·j / rate) * x[j] / N] *)
Definition cosine_projection (rate : number) (xs : list number) (f : number) : number :=
  (reduce_sum (imap (λ j x, Math_cos (Fin 2 * Math_PI * f * of_nat j / rate) * x) xs)
   / of_nat (length xs))%num.

(** [Σ_n x[n]·cos(-2π·k·n / windowSize)] and [Σ_n x[n]·sin(-2π·k·n / windowSize)] *)
Definition dft_real (windowSize : nat) (x : list number) (k : nat) : number :=
  reduce_sum (imap (λ n xn,
    (xn * Math_cos (Fin (-2) * Math_PI * of_nat k * of_nat n / of_nat windowSize))%num) x).

Definition dft_imag (windowSize : nat) (x : list number) (k : nat) : number :=
  reduce_sum (imap (λ n xn,
    (xn * Math_sin (Fin (-2) * Math_PI * of_nat k * of_nat n / of_nat windowSize))%num) x).

End Vocabulary.

(** ** Names for the values the loops compute *)

Definition Qsum (qs : list Q) : Q := foldr Qplus 0%Q qs.

(** [filtered[i]] in [bandpassFilter]. *)
Definition filtered_at (data : list number) (sfreq : Q) (i : nat) : number :=
  (sum_range data (start sfreq i) (end_ (length data) sfreq i)
   / of_Z (end_ (length data) sfreq i - start sfreq i))%num.

(** Indices of the frequencies in the band, counted from [from]: the
    [bandIndices] of [getBandPower]. *)
Definition band_indices (lo hi : number) (from : nat) (fs : list number) : list nat :=
  map snd (List.filter (λ fi : number * nat, Num.geb fi.1 lo && Num.leb fi.1 hi)
             (imap (λ idx freq, (freq, from + idx)%nat) fs)).

Section LoopValues.
Context {M : MathLib}.

(** [features[i]] for [6 <= i < 64] and for [64 <= i < 128]. *)
Definition freq_feature (data : list number) (i : nat) : number :=
  (for_loop 0 (length data) (λ j power,
     (power + Math_cos (Fin 2 * Math_PI * feature_freq i * of_nat j / Fin 250)
              * array_get data (Z.of_nat j))%num) (Fin 0)
   / of_nat (length data))%num.

Definition time_feature (data : list number) (i : nat) : number :=
  (sum_range data (windowStart (Z.of_nat (length data)) i) (windowEnd (Z.of_nat (length data)) i)
   / of_Z (windowEnd (Z.of_nat (length data)) i - windowStart (Z.of_nat (length data)) i))%num.

(** The value stored in [power[freqIdx][windowIdx]]. *)
Definition cell (data : list number) (windowSize : nat) (hop : Z)
    (freqIdx windowIdx : nat) : number :=
  let start := Z.of_nat windowIdx * hop in
  let windowed := hann windowSize (slice data start (start + Z.of_nat windowSize)) in
  let bin := dft_bin windowSize windowed freqIdx in
  Math_log10 (bin.1 * bin.1 + bin.2 * bin.2 + epsilon)%num.

Definition frequency_at (sfreq : Q) (windowSize : nat) (i : nat) : number :=
  (of_nat i * Fin sfreq / of_nat windowSize)%num.

Definition time_at (sfreq : Q) (hop : Z) (i : nat) : number :=
  (of_nat i * of_Z hop / Fin sfreq)%num.

(** The spectrogram of a call whose [numWindows] is the array length [cols]. *)
Definition spectrogram_of (data : list number) (sfreq : Q) (windowSize : nat)
    (overlap : Q) (cols : nat) : SpectrogramData :=
  let rows := Z.to_nat (freqBins windowSize) in
  {| frequencies := map (frequency_at sfreq windowSize) (seq 0 rows);
     times := map (time_at sfreq (hopSize windowSize overlap)) (seq 0 cols);
     power := map (λ k, map (λ w, cell data windowSize (hopSize windowSize overlap) k w)
                          (seq 0 cols)) (seq 0 rows) |}.

End LoopValues.

(** ** A reference [MathLib]

    Low-order rational approximations, used to run the code on concrete
    buffers.  No theorem depends on them. *)

Definition approx_cos (x : number) : number :=
  match x with
  | Fin a => Fin (Qred (1 - a * a / 2 + a * a * a * a / 24))
  | _ => NaN
  end.

Definition approx_sin (x : number) : number :=
  match x with
  | Fin a => Fin (Qred (a - a * a * a / 6 + a * a * a * a * a / 120))
  | _ => NaN
  end.

Definition approx_sqrt (x : number) : number :=
  match x with
  | Fin a =>
      match (a ?= 0)%Q with
      | Lt => NaN
      | _ => Fin (Qred (Z.sqrt (Qfloor (a * 1000000000000)) # 1000000))
      end
  | PInf => PInf
  | _ => NaN
  end.

Definition approx_log10 (x : number) : number :=
  match x with
  | Fin a =>
      match (a ?= 0)%Q with
      | Lt => NaN
      | Eq => NInf
      | Gt => Fin (Qred (inject_Z (Z.log2 (Qfloor (a * inject_Z (2 ^ 64))) - 64) * (30103 # 100000)))
      end
  | PInf => PInf
  | _ => NaN
  end.

Definition ApproxMath : MathLib := {|
  Math_PI := Fin (3141592653589793 # 1000000000000000);
  Math_cos := approx_cos;
  Math_sin := approx_sin;
  Math_sqrt := approx_sqrt;
  Math_log10 := approx_log10
|}.

(** * The application around the core

    The prediction and the synthetic recordings of [lib/onnx-inference.ts]
    and [lib/sample-data.ts], the hooks, the test suite of
    [lib/test-utilities.ts] and the colour scales of the components. *)

(** ** lib/onnx-inference.ts: the prediction *)

Inductive Label : Type :=
  | Schizophrenia
  | HealthyControl.

Record ModelPrediction : Type := {
  prediction : Label;
  confidence : number;
  modelVersion : string
}.

(** [generateMockPrediction]; [random] is the value of its one call of
    [Math.random()]. *)
Definition generateMockPrediction (features : list number) (random : number)
    : ModelPrediction :=
  let mean := array_get features 0 in
  let std := array_get features 1 in
  let complexity := (std / (Math_abs mean + Fin (1 # 1000)))%num in
  let isSchizophrenia :=
    Num.ltb (Fin (1 # 2)) complexity && Num.ltb (Math_abs mean) (Fin (1 # 10)) in
  let baseConfidence := (Fin (7 # 10) + random * Fin (1 # 4))%num in
  {| prediction := if isSchizophrenia then Schizophrenia else HealthyControl;
     confidence := Math_min [Fin (19 # 20); baseConfidence];
     modelVersion := "Mock CNN v1.0 (Demo)" |}.

Section Predict.
Context {M : MathLib}.

(** [predict], after [loadModel] has returned: [session] and [isLoaded] are
    the state it left, and a session is the function from the input tensor
    to the data of the output tensor, or to nothing when tensor
    construction or [session.run] throws. *)
Definition predict (session : option (list number → option (list number)))
    (isLoaded : bool) (random : number) (eegData : EEGData) : ModelPrediction :=
  let features := prepareInput (data eegData) in
  match session with
  | Some run =>
      if isLoaded then
        match run features with
        | Some predictions =>
            let schizophreniaProb := array_get predictions 0 in
            let healthyProb :=
              if Num.truthy (array_get predictions 1) then array_get predictions 1
              else (Fin 1 - schizophreniaProb)%num in
            {| prediction :=
                 if Num.ltb healthyProb schizophreniaProb then Schizophrenia
                 else HealthyControl;
               confidence := Math_max [schizophreniaProb; healthyProb];
               modelVersion := "CNN v1.0" |}
        | None => generateMockPrediction features random
        end
      else generateMockPrediction features random
  | None => generateMockPrediction features random
  end.

(** [predict] falls back to the mock prediction. *)
Definition uses_mock (session : option (list number → option (list number)))
    (isLoaded : bool) (eegData : EEGData) : Prop :=
  session = None ∨ isLoaded = false
  ∨ ∃ run, session = Some run ∧ run (prepareInput (data eegData)) = None.

End Predict.

(** ** lib/sample-data.ts *)

Section SampleData.
Context {M : MathLib}.

(** [generateSampleEEG]; [random i] is the value of [Math.random()] in
    iteration [i].  The loop [for (i = 0; i < numSamples; i++)] runs
    [ceil(numSamples)] times. *)
Definition generateSampleEEG (random : nat → number) (duration sfreq : Q)
    (channelName : string) : EEGData :=
  let numSamples := (duration * sfreq)%Q in
  let data :=
    for_loop 0 (Z.to_nat (Qceiling numSamples)) (λ i data,
      let t := (of_nat i / Fin sfreq)%num in
      let alpha := (Fin (1 # 2) * Math_sin (Fin 2 * Math_PI * Fin 10 * t))%num in
      let beta := (Fin (3 # 10) * Math_sin (Fin 2 * Math_PI * Fin 20 * t))%num in
      let theta := (Fin (2 # 5) * Math_sin (Fin 2 * Math_PI * Fin 6 * t))%num in
      let noise := (Fin (1 # 10) * (random i - Fin (1 # 2)))%num in
      data ++ [(alpha + beta + theta + noise)%num]) [] in
  {| data := data; sfreq := sfreq; channel_name := channelName;
     duration := Some (Fin duration) |}.

End SampleData.

(** ** hooks/use-eeg-data.ts *)

(** The [processedData] that [loadSampleData] and [generateSyntheticData]
    store for the loaded [data]: [{ ...data, data: processed }]. *)
Definition processedData (d : EEGData) : EEGData :=
  let processed := preprocess (data d) (sfreq d) default_config in
  {| data := processed; sfreq := sfreq d; channel_name := channel_name d;
     duration := duration d |}.

(** ** hooks/use-spectrogram.ts: the hook *)

Record SpectrogramHook : Type := {
  spectrogramData : option SpectrogramData;
  bands : option BandPowers;
  isReady : bool
}.

Section Hook.
Context {M : MathLib}.

(** [useSpectrogram]: each [useMemo] is the value of its function; the
    [catch] turns an exception of [generateSpectrogram] into [null]. *)
Definition useSpectrogram (d : option EEGData) (windowSize : nat) (overlap : Q)
    : SpectrogramHook :=
  let spectrogramData :=
    match d with
    | None => None
    | Some d =>
        match generateSpectrogram (data d) (sfreq d) windowSize overlap with
        | Normal s => Some s
        | Throw _ => None
        end
    end in
  let frequencyBands :=
    match spectrogramData with
    | None => None
    | Some s => Some (frequencyBands s)
    end in
  {| spectrogramData := spectrogramData;
     bands := frequencyBands;
     isReady := match spectrogramData with Some _ => true | None => false end |}.

End Hook.

(** ** lib/test-utilities.ts *)

Record Summary : Type := {
  summary_mean : number;
  summary_std : number;
  summary_range : number
}.

Record PreprocessingReport : Type := {
  original : Summary;
  processed : Summary;
  preprocessing_passed : bool
}.

Record SpectrogramReport : Type := {
  dimensions_frequencies : nat;
  dimensions_times : nat;
  dimensions_power : nat;
  frequencyRange_min : number;
  frequencyRange_max : number;
  spectrogram_passed : bool
}.

Record InferenceReport : Type := {
  inference_prediction : ModelPrediction;
  inference_responseTime : number;
  inference_passed : bool
}.

Record SuiteReport : Type := {
  suite_preprocessing : PreprocessingReport;
  suite_spectrogram : SpectrogramReport;
  suite_inference : InferenceReport;
  overallPassed : bool
}.

Section TestSuite.
Context {M : MathLib}.

Definition testPreprocessing (d : EEGData) : PreprocessingReport :=
  let originalMean := (reduce_sum (data d) / of_nat (length (data d)))%num in
  let originalStd :=
    Math_sqrt
      (foldl (λ sum val, sum + Math_pow2 (val - originalMean)) (Fin 0) (data d)
       / of_nat (length (data d)))%num in
  let originalRange := (Math_max (data d) - Math_min (data d))%num in
  let processed := preprocess (data d) (sfreq d) default_config in
  let processedMean := (reduce_sum processed / of_nat (length processed))%num in
  let processedStd :=
    Math_sqrt
      (foldl (λ sum val, sum + Math_pow2 (val - processedMean)) (Fin 0) processed
       / of_nat (length processed))%num in
  let processedRange := (Math_max processed - Math_min processed)%num in
  let passed :=
    Num.ltb (Math_abs processedMean) (Fin (1 # 10))
    && Num.leb processedRange (Fin 2)
    && Num.ltb (Fin 0) processedStd in
  {| original := {| summary_mean := originalMean; summary_std := originalStd;
                    summary_range := originalRange |};
     processed := {| summary_mean := processedMean; summary_std := processedStd;
                     summary_range := processedRange |};
     preprocessing_passed := passed |}.

(** [testSpectrogram]: an exception of [generateSpectrogram] is not caught.
    [power[0]] exists, since [freqBins >= 1]. *)
Definition testSpectrogram (d : EEGData) : completion SpectrogramReport :=
  spectrogram ← generateSpectrogram (data d) (sfreq d) 256 (1 # 2);
  let frequencies_ := length (frequencies spectrogram) in
  let times_ := length (times spectrogram) in
  let power_ := (length (power spectrogram) * length (default [] (power spectrogram !! 0%nat)))%nat in
  let min := Math_min (frequencies spectrogram) in
  let max := Math_max (frequencies spectrogram) in
  let passed :=
    (0 <? frequencies_)%nat && (0 <? times_)%nat
    && Num.geb min (Fin 0) && Num.leb max (Fin (sfreq d) / Fin 2)%num in
  mret {| dimensions_frequencies := frequencies_; dimensions_times := times_;
          dimensions_power := power_;
          frequencyRange_min := min; frequencyRange_max := max;
          spectrogram_passed := passed |}.

Definition Label_eqb (a b : Label) : bool :=
  match a, b with
  | Schizophrenia, Schizophrenia | HealthyControl, HealthyControl => true
  | _, _ => false
  end.

(** [testModelInference]; [session] and [isLoaded] are the state of the
    singleton model instance after [loadModel], and [elapsed] is the
    difference of the two readings of [performance.now()]. *)
Definition testModelInference (session : option (list number → option (list number)))
    (isLoaded : bool) (random elapsed : number) (d : EEGData) : InferenceReport :=
  let prediction_ := predict session isLoaded random d in
  let responseTime := elapsed in
  let passed :=
    (Label_eqb (prediction prediction_) HealthyControl
     || Label_eqb (prediction prediction_) Schizophrenia)
    && Num.geb (confidence prediction_) (Fin 0)
    && Num.leb (confidence prediction_) (Fin 1)
    && Num.ltb responseTime (Fin 5000) in
  {| inference_prediction := prediction_; inference_responseTime := responseTime;
     inference_passed := passed |}.

(** [runFullTestSuite]: the three tests in order; an exception of
    [testSpectrogram] is not caught. *)
Definition runFullTestSuite (session : option (list number → option (list number)))
    (isLoaded : bool) (random elapsed : number) (d : EEGData) : completion SuiteReport :=
  let preprocessing := testPreprocessing d in
  spectrogram ← testSpectrogram d;
  let inference := testModelInference session isLoaded random elapsed d in
  let overallPassed_ :=
    preprocessing_passed preprocessing && spectrogram_passed spectrogram
    && inference_passed inference in
  mret {| suite_preprocessing := preprocessing; suite_spectrogram := spectrogram;
          suite_inference := inference; overallPassed := overallPassed_ |}.

End TestSuite.

(** ** Colour scales of the components *)

(** [Rgb r g b] is the string [`rgb(${r}, ${g}, ${b})`]. *)
Inductive color : Type :=
  | Rgb (r g b : number).

(** [getColor] of components/spectrogram-visualizer.tsx *)
Definition getColor (value min max : number) : color :=
  let normalized := ((value - min) / (max - min))%num in
  if Num.ltb normalized (Fin (1 # 4)) then
    let t := (normalized / Fin (1 # 4))%num in
    Rgb (Math_floor (Fin 68 * (Fin 1 - t) + Fin 59 * t))
        (Math_floor (Fin 1 * (Fin 1 - t) + Fin 82 * t))
        (Math_floor (Fin 84 * (Fin 1 - t) + Fin 139 * t))
  else if Num.ltb normalized (Fin (1 # 2)) then
    let t := ((normalized - Fin (1 # 4)) / Fin (1 # 4))%num in
    Rgb (Math_floor (Fin 59 * (Fin 1 - t) + Fin 33 * t))
        (Math_floor (Fin 82 * (Fin 1 - t) + Fin 144 * t))
        (Math_floor (Fin 139 * (Fin 1 - t) + Fin 140 * t))
  else if Num.ltb normalized (Fin (3 # 4)) then
    let t := ((normalized - Fin (1 # 2)) / Fin (1 # 4))%num in
    Rgb (Math_floor (Fin 33 * (Fin 1 - t) + Fin 94 * t))
        (Math_floor (Fin 144 * (Fin 1 - t) + Fin 201 * t))
        (Math_floor (Fin 140 * (Fin 1 - t) + Fin 98 * t))
  else
    let t := ((normalized - Fin (3 # 4)) / Fin (1 # 4))%num in
    Rgb (Math_floor (Fin 94 * (Fin 1 - t) + Fin 253 * t))
        (Math_floor (Fin 201 * (Fin 1 - t) + Fin 231 * t))
        (Math_floor (Fin 98 * (Fin 1 - t) + Fin 37 * t)).

(** [defaultColorScale] of components/heatmap-grid.tsx *)
Definition defaultColorScale (value min max : number) : color :=
  let normalized := ((value - min) / (max - min))%num in
  let intensity := Math_floor (normalized * Fin 255) in
  Rgb intensity intensity (Fin 255 - intensity)%num.

(** The colours that the drawing loop of components/spectrogram-visualizer.tsx
    gives to the cells, row [freqIdx] and column [timeIdx]:
    [getColor(power[freqIdx][timeIdx], minPower, maxPower)] with the extrema
    of [power.flat()]. *)
Definition heatmap_colors (s : SpectrogramData) : list (list color) :=
  let flatPower := concat (power s) in
  let minPower := Math_min flatPower in
  let maxPower := Math_max flatPower in
  map (λ freqIdx,
         map (λ timeIdx,
                let powerValue :=
                  array_get (default [] (power s !! freqIdx)) (Z.of_nat timeIdx) in
                getColor powerValue minPower maxPower)
             (seq 0 (length (times s))))
      (seq 0 (length (frequencies s))).

(** ** Loops *)

Lemma for_loop_empty {St : Type} (lo hi : nat) (body : nat → St → St) (s : St) :
  (hi ≤ lo)%nat → for_loop lo hi body s = s.
Proof.
  intros Hle. unfold for_loop. replace (hi - lo)%nat with 0%nat by lia. reflexivity.
Qed.

Lemma for_loop_S {St : Type} (lo hi : nat) (body : nat → St → St) (s : St) :
  (lo ≤ hi)%nat →
  for_loop lo (S hi) body s = body hi (for_loop lo hi body s).
Proof.
  intros Hle. unfold for_loop.
  replace (S hi - lo)%nat with (S (hi - lo)) by lia.
  rewrite seq_S, foldl_app. simpl. do 2 f_equal. lia.
Qed.

(** Invariant rule of the counted loop. *)
Lemma for_loop_ind {St : Type} (P : nat → St → Prop) (lo hi : nat)
    (body : nat → St → St) (s : St) :
  (lo ≤ hi)%nat →
  P lo s →
  (∀ i t, (lo ≤ i < hi)%nat → P i t → P (S i) (body i t)) →
  P hi (for_loop lo hi body s).
Proof.
  intros Hle H0 Hstep. induction hi as [|hi IH].
  - assert (lo = 0%nat) as -> by lia. rewrite for_loop_empty by lia. exact H0.
  - destruct (decide (lo = S hi)) as [->|Hne].
    + rewrite for_loop_empty by lia. exact H0.
    + rewrite for_loop_S by lia. apply Hstep; [lia|].
      apply IH; [lia|]. intros i t Hi. apply Hstep. lia.
Qed.

(** A loop that appends [f i] builds [map f]. *)
Lemma for_loop_snoc {A : Type} (f : nat → A) (n : nat) :
  for_loop 0 n (λ i acc, acc ++ [f i]) [] = map f (seq 0 n).
Proof.
  induction n as [|n IH]; [reflexivity|].
  rewrite for_loop_S by lia. rewrite IH, seq_S, map_app. reflexivity.
Qed.

(** A loop of in-range writes [a[i] = f i]. *)
Lemma for_loop_insert {A : Type} (f : nat → A) (lo hi : nat) (l : list A) :
  (lo ≤ hi)%nat → (hi ≤ length l)%nat →
  length (for_loop lo hi (λ i a, <[i := f i]> a) l) = length l ∧
  ∀ j, for_loop lo hi (λ i a, <[i := f i]> a) l !! j
       = if decide (lo ≤ j < hi)%nat then Some (f j) else l !! j.
Proof.
  intros Hle Hlen.
  pose (P := λ (h : nat) (r : list A), length r = length l ∧
    ∀ j, r !! j = if decide (lo ≤ j < h)%nat then Some (f j) else l !! j).
  change (P hi (for_loop lo hi (λ i a, <[i := f i]> a) l)).
  apply for_loop_ind; [done| |].
  - split; [done|]. intros j. case_decide; [lia|done].
  - intros i t Hi [Hl Hj]. split; [by rewrite length_insert|].
    intros j. destruct (decide (i = j)) as [<-|Hne].
    + rewrite list_lookup_insert_eq by lia. case_decide; [done|lia].
    + rewrite list_lookup_insert_ne by done. rewrite Hj.
      repeat case_decide; try done; lia.
Qed.

Lemma array_get_app_l (data rest : list number) (j : nat) :
  (j < length data)%nat →
  array_get (data ++ rest) (Z.of_nat j) = array_get data (Z.of_nat j).
Proof.
  intros Hj. unfold array_get. destruct (Z.ltb_spec (Z.of_nat j) 0); [done|].
  by rewrite Nat2Z.id, lookup_app_l.
Qed.

Lemma array_get_length (data : list number) (x : number) :
  array_get (data ++ [x]) (Z.of_nat (length data)) = x.
Proof.
  unfold array_get. destruct (Z.ltb_spec (Z.of_nat (length data)) 0); [lia|].
  rewrite Nat2Z.id, lookup_app_r by lia. by rewrite Nat.sub_diag.
Qed.

Lemma for_loop_ext {St : Type} (lo hi : nat) (f g : nat → St → St) (s : St) :
  (∀ i t, (lo ≤ i < hi)%nat → f i t = g i t) →
  for_loop lo hi f s = for_loop lo hi g s.
Proof.
  intros Hfg. destruct (decide (lo ≤ hi)%nat) as [Hle|Hgt].
  - induction hi as [|hi IH].
    + by rewrite !for_loop_empty by lia.
    + destruct (decide (lo = S hi)) as [->|Hne].
      * by rewrite !for_loop_empty by lia.
      * rewrite !for_loop_S by lia. rewrite IH by (intros; try apply Hfg; lia).
        apply Hfg. lia.
  - by rewrite !for_loop_empty by lia.
Qed.


(** ** Rationals and floors *)

Lemma Qfloor_lt_inject (q : Q) (z : Z) : (q < inject_Z z)%Q → Qfloor q < z.
Proof.
  intros Hq. pose proof (Qfloor_le q) as Hle.
  rewrite Zlt_Qlt. eapply Qle_lt_trans; eassumption.
Qed.

Lemma Qfloor_ge_inject (q : Q) (z : Z) : (inject_Z z <= q)%Q → z ≤ Qfloor q.
Proof.
  intros Hq. rewrite <- (Qfloor_Z z). by apply Qfloor_resp_le.
Qed.

Lemma windowSize_small (sfreq : Q) :
  (0 < sfreq)%Q → (sfreq < 20)%Q → 0 ≤ windowSize sfreq ≤ 1.
Proof.
  intros Hpos Hlt. unfold windowSize. split.
  - apply Qfloor_ge_inject. change (inject_Z 0) with 0%Q.
    apply Qle_shift_div_l; [reflexivity|]. lra.
  - cut (Qfloor (sfreq / 10) < 2); [lia|]. apply Qfloor_lt_inject.
    apply Qlt_shift_div_r; [reflexivity|]. change (inject_Z 2) with 2%Q. lra.
Qed.

Lemma windowSize_large (sfreq : Q) :
  2 ≤ windowSize sfreq ↔ (20 <= sfreq)%Q.
Proof.
  unfold windowSize. split.
  - intros Hws. destruct (Qlt_le_dec sfreq 20) as [Hlt|]; [|done].
    assert (Qfloor (sfreq / 10) < 2); [|lia]. apply Qfloor_lt_inject.
    apply Qlt_shift_div_r; [reflexivity|]. change (inject_Z 2) with 2%Q. lra.
  - intros Hq. apply Qfloor_ge_inject. change (inject_Z 2) with 2%Q.
    apply Qle_shift_div_l; [reflexivity|]. lra.
Qed.

(** ** The smoothing loop *)

Lemma sum_range_empty (data : list number) (s e : Z) :
  e ≤ s → sum_range data s e = Fin 0.
Proof.
  intros Hle. unfold sum_range, seqZ. replace (Z.to_nat (e - s)) with 0%nat by lia.
  reflexivity.
Qed.

Lemma bandpassFilter_map (data : list number) (sfreq : Q) (lo hi : number) :
  bandpassFilter data sfreq lo hi = map (filtered_at data sfreq) (seq 0 (length data)).
Proof. unfold bandpassFilter. apply (for_loop_snoc (filtered_at data sfreq)). Qed.

Lemma bandpassFilter_length (data : list number) (sfreq : Q) (lo hi : number) :
  length (bandpassFilter data sfreq lo hi) = length data.
Proof. by rewrite bandpassFilter_map, length_map, length_seq. Qed.

Lemma bandpassFilter_lookup (data : list number) (sfreq : Q) (lo hi : number) (i : nat) :
  (i < length data)%nat →
  bandpassFilter data sfreq lo hi !! i = Some (filtered_at data sfreq i).
Proof.
  intros Hi. rewrite bandpassFilter_map, list_lookup_fmap.
  rewrite lookup_seq_lt by done. reflexivity.
Qed.

(** C10.  For a rate of the data model ([samplingRate > 0]) the divisor
    [end - start] of the smoothing step is non-zero at every output index
    exactly when [floor(samplingRate / 10) >= 2], that is when
    [samplingRate >= 20].  For every rate below 20 the half-window
    [floor(windowSize / 2)] is 0, the window of every index is empty
    ([start = end], nothing is summed), the divisor is 0 and the value
    stored is [0 / 0], which is [NaN]. *)
Theorem bandpass_divisor_zero_below_20 (data : list number) (sfreq : Q) (lo hi : number) :
  (0 < sfreq)%Q →
  let divisor i := end_ (length data) sfreq i - start sfreq i in
  (2 ≤ windowSize sfreq ↔ (20 <= sfreq)%Q)
  ∧ (2 ≤ windowSize sfreq → ∀ i, (i < length data)%nat → 0 < divisor i)
  ∧ (data ≠ [] → (∀ i, (i < length data)%nat → divisor i ≠ 0) → 2 ≤ windowSize sfreq)
  ∧ ((sfreq < 20)%Q →
       windowSize sfreq / 2 = 0
       ∧ ∀ i, (i < length data)%nat →
           start sfreq i = end_ (length data) sfreq i
           ∧ sum_range data (start sfreq i) (end_ (length data) sfreq i) = Fin 0
           ∧ divisor i = 0
           ∧ bandpassFilter data sfreq lo hi !! i = Some NaN).
Proof.
  intros Hpos divisor. subst divisor. cbv beta.
  split; [apply windowSize_large|]. split; [|split].
  - intros Hws i Hi. unfold start, end_.
    assert (1 ≤ windowSize sfreq / 2) by (apply Z.div_le_lower_bound; lia). lia.
  - intros Hne Hdiv. apply windowSize_large.
    destruct (Qlt_le_dec sfreq 20) as [Hlt|Hge]; [|done].
    destruct data as [|x data]; [done|].
    pose proof (windowSize_small sfreq Hpos Hlt).
    specialize (Hdiv 0%nat ltac:(simpl; lia)). unfold start, end_ in Hdiv.
    assert (windowSize sfreq / 2 = 0) by (apply Z.div_small; lia).
    simpl length in *. lia.
  - intros Hlt. pose proof (windowSize_small sfreq Hpos Hlt).
    assert (Hh : windowSize sfreq / 2 = 0) by (apply Z.div_small; lia).
    split; [done|]. intros i Hi.
    assert (Hse : start sfreq i = end_ (length data) sfreq i)
      by (unfold start, end_; lia).
    split; [done|]. split; [apply sum_range_empty; lia|]. split; [lia|].
    rewrite bandpassFilter_lookup by done. unfold filtered_at.
    rewrite sum_range_empty by lia. rewrite Hse, Z.sub_diag. reflexivity.
Qed.

Lemma bandpass_divisor_witness :
  bandpassFilter [Fin 1; Fin 2; Fin 3] 10 (Fin 1) (Fin 50) !! 1%nat = Some NaN.
Proof.
  destruct (bandpass_divisor_zero_below_20 [Fin 1; Fin 2; Fin 3] 10 (Fin 1) (Fin 50))
    as (_ & _ & _ & H); [reflexivity|].
  destruct H as [_ H]; [reflexivity|].
  apply (H 1%nat). simpl. lia.
Defined.

(** ** Order on numbers *)

Lemma leb_Fin (a b : Q) : Num.leb (Fin a) (Fin b) = true ↔ (a <= b)%Q.
Proof.
  simpl. rewrite Qle_alt. destruct (a ?= b)%Q; split; intros; congruence.
Qed.

Lemma ltb_Fin (a b : Q) : Num.ltb (Fin a) (Fin b) = true ↔ (a < b)%Q.
Proof.
  simpl. rewrite Qlt_alt. destruct (a ?= b)%Q; split; intros; congruence.
Qed.

Lemma ltb_Fin_false (a b : Q) : Num.ltb (Fin a) (Fin b) = false ↔ (b <= a)%Q.
Proof.
  simpl. rewrite Qle_alt, <- (Qcompare_antisym a b).
  destruct (a ?= b)%Q; simpl; split; intros H; try done; by destruct H.
Qed.

Lemma eqb_Fin_zero (x : number) :
  Num.eqb x (Fin 0) = true ↔ ∃ q, x = Fin q ∧ q == 0.
Proof.
  split.
  - destruct x as [| | |q]; simpl; try discriminate.
    intros Hq. exists q. split; [done|]. by apply Qeq_bool_iff.
  - intros (q & -> & Hq). simpl. by apply Qeq_bool_iff.
Qed.

(** One step of the scan keeps both of its arguments below the result. *)
Lemma max_step_leb (h x : number) (q : Q) :
  Num.leb (max_step h x) (Fin q) = true →
  Num.leb h (Fin q) = true ∧ Num.leb x (Fin q) = true.
Proof.
  destruct h as [| | |a], x as [| | |b]; simpl; try done.
  destruct (a ?= b)%Q eqn:Hab; simpl.
  - intros Hq. split; [done|]. apply Qeq_alt in Hab.
    apply leb_Fin. apply leb_Fin in Hq. by rewrite <- Hab.
  - intros Hq. split; [|done]. apply Qlt_alt in Hab.
    apply leb_Fin. apply leb_Fin in Hq. lra.
  - intros Hq. split; [done|]. apply Qgt_alt in Hab.
    apply leb_Fin. apply leb_Fin in Hq. lra.
Qed.

Lemma max_fold_leb (l : list number) (h : number) (q : Q) :
  foldl max_step h l = Fin q →
  Num.leb h (Fin q) = true ∧ Forall (λ x, Num.leb x (Fin q) = true) l.
Proof.
  revert h. induction l as [|x l IH]; intros h; simpl.
  - intros ->. split; [|done]. apply leb_Fin. lra.
  - intros Hf. destruct (IH _ Hf) as [Hs Hl].
    destruct (max_step_leb _ _ _ Hs). split; [done|]. by constructor.
Qed.

(** Every argument of a finite [Math.max] is below it. *)
Lemma Math_max_Fin (l : list number) (q : Q) :
  Math_max l = Fin q → Forall (λ x, Num.leb x (Fin q) = true) l.
Proof. intros Hm. by destruct (max_fold_leb _ _ _ Hm). Qed.

Lemma Math_abs_leb (x : number) (q : Q) :
  Num.leb (Math_abs x) (Fin q) = true → ∃ b, x = Fin b ∧ (Qabs b <= q)%Q.
Proof.
  destruct x as [| | |b]; simpl; try done.
  intros Hb. exists b. split; [done|]. by apply (leb_Fin (Qabs b) q).
Qed.

(** Samples of a buffer whose largest magnitude is finite. *)
Lemma max_abs_Fin (l : list number) (m : Q) :
  Math_max (map Math_abs l) = Fin m →
  Forall (λ x, ∃ b, x = Fin b ∧ (Qabs b <= m)%Q) l.
Proof.
  intros Hm. apply Math_max_Fin in Hm. rewrite Forall_fmap in Hm.
  eapply Forall_impl; [exact Hm|]. intros x Hx. by apply Math_abs_leb.
Qed.

Lemma normalize_length (l : list number) : length (normalize l) = length l.
Proof. unfold normalize. by rewrite length_map. Qed.

Lemma removeDCOffset_length (l : list number) : length (removeDCOffset l) = length l.
Proof. unfold removeDCOffset. by rewrite length_map. Qed.

Lemma preprocess_length (data : list number) (sfreq : Q) (cfg : config) :
  length (preprocess data sfreq cfg) = length data.
Proof.
  unfold preprocess.
  by rewrite normalize_length, bandpassFilter_length, removeDCOffset_length.
Qed.

(** A zero maximum turns every quotient of [normalize] into [0/0]. *)
Lemma normalize_zero_max (l : list number) :
  Num.eqb (Math_max (map Math_abs l)) (Fin 0) = true →
  normalize l = replicate (length l) NaN.
Proof.
  intros Hz. apply eqb_Fin_zero in Hz as (m & Hm & Hm0).
  unfold normalize. rewrite Hm. apply max_abs_Fin in Hm.
  induction Hm as [|x l (b & -> & Hb) _ IH]; [done|].
  simpl. f_equal; [|exact IH].
  assert (Hq : Qeq_bool m 0 = true) by by apply Qeq_bool_iff.
  rewrite Hq. assert (Hb0 : b == 0).
  { rewrite Hm0 in Hb. revert Hb. apply Qabs_case; intros; lra. }
  apply Qeq_alt in Hb0. by rewrite Hb0.
Qed.

(** C1 (as amended).  For every buffer whose maximum absolute value after
    DC-offset removal and smoothing is zero, [condition] signals no error:
    it performs the normalization division and returns a buffer of the
    length of the input in which every value is [NaN] (the quotient
    [0 / 0]). *)
Theorem condition_zero_maximum_gives_NaN (data : list number) (sfreq : Q) (cfg : config) :
  let smoothed :=
    bandpassFilter (removeDCOffset data) sfreq
      (or_default (lowCutoff cfg) (Fin 1)) (or_default (highCutoff cfg) (Fin 50)) in
  Num.eqb (Math_max (map Math_abs smoothed)) (Fin 0) = true →
  condition data sfreq cfg = Normal (replicate (length data) NaN).
Proof.
  intros smoothed Hz. unfold condition, preprocess. f_equal.
  fold smoothed. rewrite (normalize_zero_max _ Hz).
  unfold smoothed. by rewrite bandpassFilter_length, removeDCOffset_length.
Qed.

Lemma condition_zero_maximum_witness :
  condition [Fin 5; Fin 5; Fin 5] 250 default_config = Normal [NaN; NaN; NaN].
Proof.
  apply (condition_zero_maximum_gives_NaN [Fin 5; Fin 5; Fin 5] 250 default_config).
  vm_compute. reflexivity.
Defined.

(** C1 as stated fails on the scenario of the specification: 2500 zero
    samples at 250 Hz are returned as 2500 [NaN], without any error. *)
Lemma condition_zero_buffer_returns_NaN :
  condition (replicate 2500 (Fin 0)) 250 default_config = Normal (replicate 2500 NaN).
Proof. vm_compute. reflexivity. Qed.

Lemma foldl_add_Fin (qs : list Q) (a : Q) :
  ∃ s, foldl Num.add (Fin a) (map Fin qs) = Fin s ∧ s == a + Qsum qs.
Proof.
  revert a. induction qs as [|q qs IH]; intros a; simpl.
  - exists a. split; [done|]. lra.
  - destruct (IH (Qred (a + q))) as (s & Hs & Hq). exists s. split; [done|].
    rewrite Hq, Qred_correct. lra.
Qed.

Lemma reduce_sum_Fin (qs : list Q) :
  ∃ s, reduce_sum (map Fin qs) = Fin s ∧ s == Qsum qs.
Proof.
  destruct (foldl_add_Fin qs 0) as (s & Hs & Hq). exists s. split; [done|].
  rewrite Hq. lra.
Qed.

Lemma Qsum_shift (qs : list Q) (c : Q) :
  Qsum (map (λ q, Qred (q - c)) qs) == Qsum qs - inject_Z (Z.of_nat (length qs)) * c.
Proof.
  induction qs as [|q qs IH]; simpl.
  - rewrite Nat2Z.inj_0. change (inject_Z 0) with 0%Q. lra.
  - rewrite IH, Qred_correct. rewrite Nat2Z.inj_succ, <- Z.add_1_r, inject_Z_plus.
    change (inject_Z 1) with 1%Q. lra.
Qed.

Lemma div_Fin_nonzero (a b : Q) :
  ¬ b == 0 → (Fin a / Fin b)%num = Fin (Qred (a / b)).
Proof.
  intros Hb. simpl. destruct (Qeq_bool b 0) eqn:E; [|done].
  apply Qeq_bool_iff in E. contradiction.
Qed.

Lemma inject_Z_length_nonzero {A : Type} (l : list A) :
  l ≠ [] → ¬ inject_Z (Z.of_nat (length l)) == 0.
Proof.
  intros Hl Hz. destruct l; [done|]. simpl length in Hz.
  unfold Qeq in Hz. simpl in Hz. lia.
Qed.

(** After [removeDCOffset] a non-empty buffer of finite samples has mean 0. *)
Lemma removeDCOffset_mean (qs : list Q) :
  qs ≠ [] → mean (removeDCOffset (map Fin qs)) = Fin 0.
Proof.
  intros Hne. unfold removeDCOffset, mean.
  destruct (reduce_sum_Fin qs) as (s & -> & Hs).
  rewrite !length_map. unfold of_nat, of_Z.
  pose proof (inject_Z_length_nonzero qs Hne) as Hn.
  rewrite div_Fin_nonzero by done.
  set (μ := Qred (s / inject_Z (Z.of_nat (length qs)))).
  rewrite map_map.
  change (map _ qs) with (map (λ q, Fin (Qred (q - μ))) qs).
  rewrite <- (map_map (λ q, Qred (q - μ)) Fin).
  destruct (reduce_sum_Fin (map (λ q, Qred (q - μ)) qs)) as (s' & -> & Hs').
  rewrite div_Fin_nonzero by done. f_equal.
  change 0%Q with (Qred 0). apply Qred_complete.
  rewrite Hs', Qsum_shift. unfold μ. rewrite Qred_correct, Hs. field. done.
Qed.

(** Dividing by a non-zero finite maximum keeps every sample in [[-1, 1]]. *)
Lemma normalize_bounded (l : list number) (m : Q) :
  Math_max (map Math_abs l) = Fin m → ¬ m == 0 →
  Forall (λ v, ∃ q, v = Fin q ∧ (-1 <= q <= 1)%Q) (normalize l).
Proof.
  intros Hm Hm0. unfold normalize. rewrite Hm. apply max_abs_Fin in Hm.
  rewrite Forall_fmap. eapply Forall_impl; [exact Hm|].
  intros x (b & -> & Hb). unfold compose. rewrite div_Fin_nonzero by done.
  eexists. split; [done|]. rewrite Qred_correct.
  assert (Hpos : (0 < m)%Q).
  { pose proof (Qabs_nonneg b). destruct (Qlt_le_dec 0 m); [done|].
    exfalso. apply Hm0. lra. }
  revert Hb. apply Qabs_case; intros Hs Hb; split.
  - apply Qle_shift_div_l; lra.
  - apply Qle_shift_div_r; lra.
  - apply Qle_shift_div_l; lra.
  - apply Qle_shift_div_r; lra.
Qed.

(** C6 (as amended).  For every non-empty buffer of finite samples,
    [condition] returns a buffer of the length of the input; the buffer has
    mean 0 right after DC-offset removal (exactly, in exact arithmetic);
    and whenever the maximum absolute value before normalization is a
    non-zero finite number, every output value lies in [[-1, 1]]. *)
Theorem condition_length_and_range (qs : list Q) (sfreq : Q) (cfg : config) :
  qs ≠ [] →
  let smoothed :=
    bandpassFilter (removeDCOffset (map Fin qs)) sfreq
      (or_default (lowCutoff cfg) (Fin 1)) (or_default (highCutoff cfg) (Fin 50)) in
  ∃ out, condition (map Fin qs) sfreq cfg = Normal out
    ∧ length out = length qs
    ∧ mean (removeDCOffset (map Fin qs)) = Fin 0
    ∧ (∀ m, Math_max (map Math_abs smoothed) = Fin m → ¬ m == 0 →
         ∀ v, v ∈ out → ∃ q, v = Fin q ∧ (-1 <= q <= 1)%Q).
Proof.
  intros Hne smoothed. eexists. split; [reflexivity|]. repeat split.
  - by rewrite preprocess_length, length_map.
  - by apply removeDCOffset_mean.
  - intros m Hm Hm0 v Hv. pose proof (normalize_bounded smoothed m Hm Hm0) as Hb.
    rewrite Forall_forall in Hb. by apply Hb.
Qed.

Lemma condition_length_and_range_witness :
  ∃ out, condition [Fin 0; Fin 0; Fin 3] 20 default_config = Normal out
    ∧ length out = 3%nat
    ∧ ∀ v, v ∈ out → ∃ q, v = Fin q ∧ (-1 <= q <= 1)%Q.
Proof.
  destruct (condition_length_and_range [0; 0; 3]%Q 20 default_config)
    as (out & Hout & Hlen & _ & Hrange); [discriminate|].
  exists out. split; [exact Hout|]. split; [exact Hlen|].
  apply (Hrange 1%Q); [reflexivity|discriminate].
Defined.

(** C6 as stated fails: smoothing moves the mean away from 0 (here to
    [-1/2]) before normalization, and a constant buffer is returned as
    [NaN] values, which are not in [[-1, 1]]; a buffer with an infinite
    sample has no mean after DC-offset removal. *)
Lemma condition_mean_and_range_fail :
  mean (bandpassFilter (removeDCOffset [Fin 0; Fin 0; Fin 3]) 20 (Fin 1) (Fin 50)) = Fin (-1 # 2)
  ∧ condition [Fin 5; Fin 5; Fin 5] 250 default_config = Normal [NaN; NaN; NaN]
  ∧ mean (removeDCOffset [PInf; Fin 0]) = NaN.
Proof. repeat split; vm_compute; reflexivity. Qed.

(** Samples with indices in [[a, b)]. *)
Section Features.
Context {M : MathLib}.

(** An index loop that accumulates [g j data[j]] is the sum of [imap g]. *)
Lemma for_loop_sum_imap (g : nat → number → number) (data : list number) :
  for_loop 0 (length data) (λ j acc, (acc + g j (array_get data (Z.of_nat j)))%num) (Fin 0)
  = reduce_sum (imap g data).
Proof.
  unfold reduce_sum.
  induction data as [|x data IH] using rev_ind; [reflexivity|].
  rewrite length_app. simpl. replace (length data + 1)%nat with (S (length data)) by lia.
  rewrite for_loop_S by lia. rewrite imap_app, foldl_app. simpl.
  rewrite Nat.add_0_r, array_get_length. f_equal. rewrite <- IH.
  apply for_loop_ext. intros i t Hi. by rewrite array_get_app_l by lia.
Qed.

Lemma freq_feature_projection (data : list number) (i : nat) :
  freq_feature data i = cosine_projection (Fin 250) data (feature_freq i).
Proof.
  unfold freq_feature, cosine_projection. f_equal.
  apply (for_loop_sum_imap
           (λ j x, (Math_cos (Fin 2 * Math_PI * feature_freq i * of_nat j / Fin 250) * x)%num)).
Qed.

(** The three zones of the vector that [prepareInput] builds. *)
Lemma prepareInput_entries (data : list number) :
  length (prepareInput data) = 128%nat
  ∧ prepareInput data !! 0%nat = Some (reduce_sum data / of_nat (length data))%num
  ∧ prepareInput data !! 1%nat = Some (Math_sqrt (variance data))
  ∧ prepareInput data !! 2%nat = Some (variance data)
  ∧ prepareInput data !! 3%nat = Some (Math_min data)
  ∧ prepareInput data !! 4%nat = Some (Math_max data)
  ∧ prepareInput data !! 5%nat = Some (Math_max data - Math_min data)%num
  ∧ (∀ i, (6 ≤ i < 64)%nat → prepareInput data !! i = Some (freq_feature data i))
  ∧ (∀ i, (64 ≤ i < 128)%nat → prepareInput data !! i = Some (time_feature data i)).
Proof.
  assert (Hvar : (foldl (λ sum val, sum + Math_pow2 (val - reduce_sum data / of_nat (length data)))
                    (Fin 0) data / of_nat (length data))%num = variance data).
  { unfold variance, mean at 1, reduce_sum at 1. rewrite length_map. f_equal.
    symmetry. apply (foldl_fmap Num.add). }
  unfold prepareInput. rewrite Hvar.
  generalize (reduce_sum data / of_nat (length data))%num (variance data)
             (Math_sqrt (variance data)) (Math_min data) (Math_max data).
  intros mean var std min max.
  set (F0 := <[5%nat:=_]> _).
  assert (HF0 : length F0 = 128%nat) by reflexivity.
  pose proof (for_loop_insert (freq_feature data) 6 64 F0 ltac:(lia) ltac:(lia)) as [HL1 H1].
  set (F1 := for_loop 6 64 _ F0) in *.
  pose proof (for_loop_insert (time_feature data) 64 128 F1 ltac:(lia) ltac:(lia)) as [HL2 H2].
  set (F2 := for_loop 64 128 _ F1) in *.
  change (for_loop 64 128 _ _) with F2.
  split; [lia|].
  repeat split; try (rewrite H2, H1; reflexivity).
  - intros i Hi. rewrite H2, H1. repeat case_decide; (done || lia).
  - intros i Hi. rewrite H2. case_decide; (done || lia).
Qed.
End Features.

Lemma windowStart_div (len : Z) (i : nat) :
  windowStart len i = (Z.of_nat i - 64) * len / 64.
Proof.
  unfold windowStart, Qfloor, Qdiv, Qmult, Qinv, inject_Z. simpl.
  f_equal. lia.
Qed.

Lemma array_get_lookup (data : list number) (j : nat) (x : number) :
  data !! j = Some x → array_get data (Z.of_nat j) = x.
Proof.
  intros Hj. unfold array_get. destruct (Z.ltb_spec (Z.of_nat j) 0); [lia|].
  by rewrite Nat2Z.id, Hj.
Qed.

Lemma sum_range_take_drop (data : list number) (a n : nat) (s : number) :
  (a + n ≤ length data)%nat →
  foldl (λ sum j, (sum + array_get data j)%num) s (seqZ (Z.of_nat a) (Z.of_nat n))
  = foldl Num.add s (take n (drop a data)).
Proof.
  revert s. induction n as [|n IH]; intros s Hn.
  - by rewrite take_0.
  - rewrite seqZ_S, foldl_app. simpl.
    destruct (lookup_lt_is_Some_2 data (a + n)%nat ltac:(lia)) as [x Hx].
    rewrite (take_S_r _ _ x) by (by rewrite lookup_drop).
    rewrite foldl_app. simpl. rewrite IH by lia. f_equal.
    rewrite <- Nat2Z.inj_add. by apply array_get_lookup.
Qed.

(** The summation loop over [[a, b)] adds up the samples of that window. *)
Lemma sum_range_window (data : list number) (a b : Z) :
  0 ≤ a ≤ b → b ≤ Z.of_nat (length data) →
  sum_range data a b = reduce_sum (window data a b).
Proof.
  intros Hab Hb. unfold sum_range, window, reduce_sum.
  rewrite <- (Z2Nat.id a) at 1 2 by lia. rewrite <- (Z2Nat.id (b - Z.of_nat (Z.to_nat a))) by lia.
  rewrite sum_range_take_drop by lia. do 2 f_equal. lia.
Qed.

Lemma window_length (data : list number) (a b : Z) :
  0 ≤ a ≤ b → b ≤ Z.of_nat (length data) →
  Z.of_nat (length (window data a b)) = b - a.
Proof.
  intros Hab Hb. unfold window. rewrite length_take, length_drop. lia.
Qed.

Section Features.
Context {M : MathLib}.

(** Where the 64 time windows lie, for a buffer of [len ≥ 0] samples. *)
Lemma window_bounds (len : Z) (k : nat) :
  0 ≤ len → (k < 64)%nat →
  let a := windowStart len (64 + k) in
  let b := windowEnd len (64 + k) in
  a = Z.of_nat k * len / 64 ∧ b = a + len / 64 ∧ 0 ≤ a ∧ b ≤ len.
Proof.
  intros Hlen Hk a b. subst a b. unfold windowEnd. rewrite windowStart_div.
  replace (Z.of_nat (64 + k) - 64) with (Z.of_nat k) by lia.
  assert (0 ≤ Z.of_nat k * len) by nia.
  assert (Z.of_nat k * len ≤ 63 * len) by nia.
  generalize dependent (Z.of_nat k * len). intros p Hp0 Hp.
  pose proof (Z.div_mod p 64 ltac:(lia)). pose proof (Z.mod_pos_bound p 64 ltac:(lia)).
  pose proof (Z.div_mod len 64 ltac:(lia)). pose proof (Z.mod_pos_bound len 64 ltac:(lia)).
  lia.
Qed.

Lemma time_feature_mean (data : list number) (k : nat) :
  (k < 64)%nat →
  let len := Z.of_nat (length data) in
  time_feature data (64 + k)
  = mean (window data (Z.of_nat k * len / 64) (Z.of_nat k * len / 64 + len / 64)).
Proof.
  intros Hk len. unfold time_feature, mean. fold len.
  destruct (window_bounds len k ltac:(lia) Hk) as (Ha & Hb & H0 & Hle).
  rewrite Hb, Ha in *.
  assert (0 ≤ len / 64) by (apply Z.div_pos; lia).
  rewrite sum_range_window by (subst len; lia). f_equal.
  unfold of_nat. f_equal. rewrite window_length by (subst len; lia). done.
Qed.
End Features.

Lemma min_step_Fin (a b : Q) :
  ∃ m, min_step (Fin a) (Fin b) = Fin m ∧ (m = a ∨ m = b) ∧ (m <= a)%Q ∧ (m <= b)%Q.
Proof.
  unfold min_step. destruct (Num.ltb (Fin b) (Fin a)) eqn:E.
  - apply ltb_Fin in E. exists b. repeat split; [by right|lra..].
  - apply ltb_Fin_false in E. exists a. repeat split; [by left|lra..].
Qed.

Lemma max_step_Fin (a b : Q) :
  ∃ m, max_step (Fin a) (Fin b) = Fin m ∧ (m = a ∨ m = b) ∧ (a <= m)%Q ∧ (b <= m)%Q.
Proof.
  unfold max_step. destruct (Num.ltb (Fin a) (Fin b)) eqn:E.
  - apply ltb_Fin in E. exists b. repeat split; [by right|lra..].
  - apply ltb_Fin_false in E. exists a. repeat split; [by left|lra..].
Qed.

Lemma foldl_min_Fin (qs : list Q) (a : Q) :
  ∃ m, foldl min_step (Fin a) (map Fin qs) = Fin m
       ∧ m ∈ a :: qs ∧ ∀ q, q ∈ a :: qs → (m <= q)%Q.
Proof.
  revert a. induction qs as [|b qs IH]; intros a.
  - exists a. repeat split; [by left|]. intros q Hq. apply list_elem_of_singleton in Hq as ->. lra.
  - change (foldl min_step (Fin a) (map Fin (b :: qs)))
      with (foldl min_step (min_step (Fin a) (Fin b)) (map Fin qs)).
    destruct (min_step_Fin a b) as (m0 & -> & Hm0 & Ha & Hb).
    destruct (IH m0) as (m & Hm & Hin & Hle). exists m. split; [done|]. split.
    + apply elem_of_cons in Hin. rewrite !elem_of_cons.
      destruct Hin as [->|Hin]; [destruct Hm0 as [->| ->]|]; auto.
    + intros q Hq. assert (Hmm : (m <= m0)%Q) by (apply Hle; by left).
      apply elem_of_cons in Hq as [->|Hq]; [lra|].
      apply elem_of_cons in Hq as [->|Hq]; [lra|]. apply Hle. by right.
Qed.

Lemma foldl_max_Fin (qs : list Q) (a : Q) :
  ∃ m, foldl max_step (Fin a) (map Fin qs) = Fin m
       ∧ m ∈ a :: qs ∧ ∀ q, q ∈ a :: qs → (q <= m)%Q.
Proof.
  revert a. induction qs as [|b qs IH]; intros a.
  - exists a. repeat split; [by left|]. intros q Hq. apply list_elem_of_singleton in Hq as ->. lra.
  - change (foldl max_step (Fin a) (map Fin (b :: qs)))
      with (foldl max_step (max_step (Fin a) (Fin b)) (map Fin qs)).
    destruct (max_step_Fin a b) as (m0 & -> & Hm0 & Ha & Hb).
    destruct (IH m0) as (m & Hm & Hin & Hle). exists m. split; [done|]. split.
    + apply elem_of_cons in Hin. rewrite !elem_of_cons.
      destruct Hin as [->|Hin]; [destruct Hm0 as [->| ->]|]; auto.
    + intros q Hq. assert (Hmm : (m0 <= m)%Q) by (apply Hle; by left).
      apply elem_of_cons in Hq as [->|Hq]; [lra|].
      apply elem_of_cons in Hq as [->|Hq]; [lra|]. apply Hle. by right.
Qed.

(** On finite samples [Math.min] and [Math.max] return the least and the
    greatest sample. *)
Lemma Math_min_max_Fin (qs : list Q) :
  qs ≠ [] →
  ∃ lo hi, Math_min (map Fin qs) = Fin lo ∧ Math_max (map Fin qs) = Fin hi
           ∧ lo ∈ qs ∧ hi ∈ qs ∧ ∀ q, q ∈ qs → (lo <= q <= hi)%Q.
Proof.
  destruct qs as [|a qs]; [done|]. intros _.
  destruct (foldl_min_Fin qs a) as (lo & Hlo & Hlin & Hlle).
  destruct (foldl_max_Fin qs a) as (hi & Hhi & Hhin & Hhle).
  exists lo, hi. repeat split; try done.
  - by apply Hlle.
  - by apply Hhle.
Qed.

Section Features.
Context {M : MathLib}.

(** C9.  For every non-empty buffer [extract] returns exactly 128 values,
    and entries 0 to 5 are the mean, the population standard deviation
    (square root of the variance with divisor N), the variance, the
    minimum, the maximum and maximum minus minimum of the buffer it is
    given, which it does not condition.  On finite samples [Math.min] and
    [Math.max] are the least and the greatest sample. *)
Theorem statistical_features (data : list number) (rate : Q) :
  data ≠ [] →
  ∃ features, extract data rate = Normal features
    ∧ length features = 128%nat
    ∧ features !! 0%nat = Some (mean data)
    ∧ features !! 1%nat = Some (Math_sqrt (variance data))
    ∧ features !! 2%nat = Some (variance data)
    ∧ features !! 3%nat = Some (Math_min data)
    ∧ features !! 4%nat = Some (Math_max data)
    ∧ features !! 5%nat = Some (Math_max data - Math_min data)%num
    ∧ ∀ qs, data = map Fin qs →
        ∃ lo hi, Math_min data = Fin lo ∧ Math_max data = Fin hi
                 ∧ lo ∈ qs ∧ hi ∈ qs ∧ ∀ q, q ∈ qs → (lo <= q <= hi)%Q.
Proof.
  intros Hne. exists (prepareInput data). split; [reflexivity|].
  destruct (prepareInput_entries data) as (HL & H0 & H1 & H2 & H3 & H4 & H5 & _).
  repeat (split; [done|]).
  intros qs ->. apply Math_min_max_Fin. by destruct qs.
Qed.

Lemma feature_freq_value (i : nat) :
  ∃ f, feature_freq i = Fin f ∧ f == (inject_Z (Z.of_nat i) - 6) / 58 * 50.
Proof.
  exists (Qred (Qred (inject_Z (Z.of_nat i - 6) / 58) * 50)). split; [reflexivity|].
  rewrite !Qred_correct. unfold Z.sub. rewrite inject_Z_plus.
  change (inject_Z (- (6))) with (- (6))%Q. field.
Qed.

(** C4.  For every buffer and every [i] with [6 <= i <= 63], entry [i] of
    the feature vector is [Σ_j cos(2π·f·j / 250) * x[j] / N] with
    [f = ((i - 6) / 58) * 50]: the reference rate is the constant 250.  The
    sampling rate is not read, so two calls of [extract] that differ only
    in the rate return the same vector. *)
Theorem frequency_features (data : list number) (i : nat) :
  (6 ≤ i ≤ 63)%nat →
  (∀ rate, ∃ features, extract data rate = Normal features
      ∧ features !! i = Some (cosine_projection (Fin 250) data (feature_freq i)))
  ∧ (∃ f, feature_freq i = Fin f ∧ f == (inject_Z (Z.of_nat i) - 6) / 58 * 50)
  ∧ (∀ r1 r2, extract data r1 = extract data r2).
Proof.
  intros Hi. repeat split.
  - intros rate. exists (prepareInput data). split; [reflexivity|].
    destruct (prepareInput_entries data) as (_ & _ & _ & _ & _ & _ & _ & Hf & _).
    rewrite Hf by lia. by rewrite freq_feature_projection.
  - apply feature_freq_value.
Qed.

(** C2 (as amended).  For every buffer of length [N >= 64], entry [64 + k]
    of the feature vector is the arithmetic mean of the samples with
    indices in [[floor(k·N/64), floor(k·N/64) + floor(N/64))].  These 64
    windows are non-empty, lie inside the buffer (the clamp [min(end, N)]
    never takes effect) and are disjoint, in increasing order.  When 64
    divides [N] they start at [k·floor(N/64)], are contiguous and span the
    whole buffer; otherwise the last one ends before the end of the
    buffer. *)
Theorem time_windows (data : list number) (rate : Q) :
  let N := Z.of_nat (length data) in
  let a (k : nat) := Z.of_nat k * N / 64 in
  let b (k : nat) := a k + N / 64 in
  64 ≤ N →
  (∃ features, extract data rate = Normal features
     ∧ ∀ k, (k < 64)%nat → features !! (64 + k)%nat = Some (mean (window data (a k) (b k))))
  ∧ (∀ k, (k < 64)%nat → 0 ≤ a k ∧ a k < b k ∧ b k ≤ N)
  ∧ (∀ k, (k < 63)%nat → b k ≤ a (S k))
  ∧ (N mod 64 = 0 →
       a 0%nat = 0 ∧ b 63%nat = N
       ∧ ∀ k, (k < 64)%nat → a k = Z.of_nat k * (N / 64) ∧ b k = a (S k))
  ∧ (N mod 64 ≠ 0 → b 63%nat < N).
Proof.
  intros N a b HN.
  assert (Hq : 0 < N / 64) by (apply Z.div_str_pos; lia).
  pose proof (Z.div_mod N 64 ltac:(lia)) as HNdm.
  pose proof (Z.mod_pos_bound N 64 ltac:(lia)) as Hr.
  assert (Ha : ∀ k : nat, a k = Z.of_nat k * (N / 64) + Z.of_nat k * (N mod 64) / 64).
  { intros k. unfold a.
    replace (Z.of_nat k * N) with (Z.of_nat k * (N / 64) * 64 + Z.of_nat k * (N mod 64)) by lia.
    by rewrite Z.div_add_l by lia. }
  assert (He0 : ∀ k : nat, 0 ≤ Z.of_nat k * (N mod 64) / 64)
    by (intros k; apply Z.div_pos; nia).
  assert (Hemono : ∀ k : nat,
    Z.of_nat k * (N mod 64) / 64 ≤ Z.of_nat (S k) * (N mod 64) / 64)
    by (intros k; apply Z.div_le_mono; nia).
  assert (Heup : ∀ k : nat, (k < 64)%nat → Z.of_nat k * (N mod 64) / 64 ≤ N mod 64)
    by (intros k Hk; apply Z.div_le_upper_bound; nia).
  split; [|split; [|split; [|split]]].
  - exists (prepareInput data). split; [reflexivity|]. intros k Hk.
    destruct (prepareInput_entries data) as (_ & _ & _ & _ & _ & _ & _ & _ & Ht).
    rewrite Ht by lia. by rewrite time_feature_mean.
  - intros k Hk. unfold b. rewrite Ha. specialize (He0 k). specialize (Heup k Hk). nia.
  - intros k Hk. unfold b. rewrite (Ha k), (Ha (S k)). specialize (Hemono k). nia.
  - intros Hm. rewrite Hm in *.
    assert (Hz : ∀ k : nat, a k = Z.of_nat k * (N / 64)).
    { intros k. rewrite Ha, Z.mul_0_r, Z.div_0_l by lia. lia. }
    split; [|split].
    + rewrite Hz. lia.
    + unfold b. rewrite Hz. lia.
    + intros k Hk. unfold b. rewrite (Hz k), (Hz (S k)). lia.
  - intros Hm. unfold b. rewrite Ha.
    assert (Z.of_nat 63 * (N mod 64) / 64 < N mod 64)
      by (apply Z.div_lt_upper_bound; lia).
    lia.
Qed.
End Features.

Lemma statistical_features_witness :
  ∃ features, @extract ApproxMath [Fin 1; Fin 2; Fin 3; Fin 4] 250 = Normal features
    ∧ length features = 128%nat
    ∧ features !! 0%nat = Some (Fin (5 # 2))
    ∧ features !! 2%nat = Some (Fin (5 # 4))
    ∧ features !! 3%nat = Some (Fin 1)
    ∧ features !! 4%nat = Some (Fin 4)
    ∧ features !! 5%nat = Some (Fin 3).
Proof.
  destruct (@statistical_features ApproxMath [Fin 1; Fin 2; Fin 3; Fin 4] 250)
    as (features & Hf & Hlen & H0 & _ & H2 & H3 & H4 & H5 & _); [discriminate|].
  exists features. repeat (split; [assumption|]). exact H5.
Defined.

Lemma frequency_features_witness :
  (∃ features, @extract ApproxMath [Fin 1; Fin 2; Fin 3; Fin 4] 250 = Normal features
     ∧ features !! 6%nat
       = Some (@cosine_projection ApproxMath (Fin 250) [Fin 1; Fin 2; Fin 3; Fin 4] (Fin 0)))
  ∧ @extract ApproxMath [Fin 1; Fin 2; Fin 3; Fin 4] 250
    = @extract ApproxMath [Fin 1; Fin 2; Fin 3; Fin 4] 500.
Proof.
  destruct (@frequency_features ApproxMath [Fin 1; Fin 2; Fin 3; Fin 4] 6)
    as (Hentry & _ & Hrate); [lia|].
  split; [exact (Hentry 250%Q)|exact (Hrate 250%Q 500%Q)].
Defined.

Lemma time_windows_witness :
  let data := map of_nat (seq 0 100) in
  ∃ features, @extract ApproxMath data 250 = Normal features
    ∧ features !! 66%nat = Some (mean (window data 3 4)).
Proof.
  intros data.
  destruct (@time_windows ApproxMath data 250) as ((features & Hf & Hk) & _);
    [vm_compute; discriminate|].
  exists features. split; [exact Hf|]. exact (Hk 2%nat ltac:(lia)).
Defined.

(** C2 as stated fails on a buffer of 100 samples ([floor(N/64) = 1]):
    entry [64 + 2] averages the window [[3, 4)] and not [[2, 3)], and the
    last entry averages [[98, 99)] instead of absorbing the remainder up to
    index 100. *)
Lemma time_windows_not_a_partition :
  let data := map of_nat (seq 0 100) in
  ∃ features, @extract ApproxMath data 250 = Normal features
    ∧ features !! 66%nat = Some (Fin 3)
    ∧ mean (window data (2 * (100 / 64)) (3 * (100 / 64))) = Fin 2
    ∧ features !! 127%nat = Some (Fin 98)
    ∧ mean (window data (63 * (100 / 64)) 100) = Fin 81.
Proof.
  intros data. exists (@prepareInput ApproxMath data). split; [reflexivity|].
  destruct (@prepareInput_entries ApproxMath data) as (_ & _ & _ & _ & _ & _ & _ & _ & Ht).
  rewrite !Ht by lia. repeat split; vm_compute; reflexivity.
Qed.

(** ** Arrays built by index *)

Lemma lookup_map_seq {A : Type} (f : nat → A) (n i : nat) :
  map f (seq 0 n) !! i = if decide (i < n)%nat then Some (f i) else None.
Proof.
  rewrite list_lookup_fmap. case_decide.
  - by rewrite lookup_seq_lt.
  - by rewrite lookup_seq_ge by lia.
Qed.

Lemma insert_map_seq {A : Type} (f g : nat → A) (n i : nat) :
  (∀ j, j ≠ i → f j = g j) →
  <[i := g i]> (map f (seq 0 n)) = map g (seq 0 n).
Proof.
  intros Hfg. apply list_eq. intros j.
  destruct (decide (i < n)%nat) as [Hi|Hi].
  - destruct (decide (j = i)) as [->|Hne].
    + rewrite list_lookup_insert_eq by (by rewrite length_map, length_seq).
      rewrite lookup_map_seq. by case_decide.
    + rewrite list_lookup_insert_ne by done. rewrite !lookup_map_seq.
      case_decide; [|done]. by rewrite Hfg.
  - rewrite list_insert_ge by (rewrite length_map, length_seq; lia).
    rewrite !lookup_map_seq. case_decide; [|done].
    rewrite Hfg; [done|lia].
Qed.

Lemma replicate_map_seq {A : Type} (x : A) (n : nat) :
  replicate n x = map (λ _, x) (seq 0 n).
Proof.
  apply list_eq. intros i. rewrite lookup_map_seq. case_decide.
  - by apply lookup_replicate_2.
  - apply lookup_replicate_None. lia.
Qed.

(** ** Array lengths *)

Lemma add_of_Z (a b : Z) : (of_Z a + of_Z b)%num = of_Z (a + b).
Proof.
  unfold of_Z. simpl. f_equal. rewrite <- (inject_Z_Qred (a + b)).
  apply Qred_complete. by rewrite inject_Z_plus.
Qed.

Lemma div_of_Z_floor (a b : Z) :
  b ≠ 0 → Math_floor (of_Z a / of_Z b) = of_Z (a / b).
Proof.
  intros Hb. unfold of_Z. rewrite div_Fin_nonzero.
  - simpl. unfold of_Z. do 2 f_equal. rewrite Zdiv_Qdiv.
    apply Qfloor_comp, Qred_correct.
  - intros Hz. unfold Qeq in Hz. simpl in Hz. lia.
Qed.

Lemma array_length_of_Z (z : Z) :
  array_length_of (of_Z z)
  = if decide (0 ≤ z ≤ max_array_length) then Some (Z.to_nat z) else None.
Proof.
  unfold array_length_of, of_Z. rewrite Qfloor_Z.
  assert (Hq : Qeq_bool (inject_Z z) (inject_Z z) = true) by (apply Qeq_bool_iff; reflexivity).
  rewrite Hq. simpl.
  destruct (Z.leb_spec 0 z), (Z.leb_spec z max_array_length); simpl; case_decide; (done || lia).
Qed.

Lemma array_length_of_Some (x : number) (n : nat) :
  array_length_of x = Some n →
  ToLength x = Z.of_nat n ∧ Z.of_nat n ≤ max_array_length.
Proof.
  destruct x as [| | |a]; simpl; try done.
  destruct (Qeq_bool a (inject_Z (Qfloor a))); simpl; [|done].
  destruct (Z.leb_spec 0 (Qfloor a)); simpl; [|done].
  destruct (Z.leb_spec (Qfloor a) max_array_length); simpl; [|done].
  intros [= <-]. unfold max_array_length in *. lia.
Qed.

Lemma Array_from_valid {A : Type} (x : number) (n : nat) (f : nat → A) :
  array_length_of x = Some n → Array_from x f = Normal (map f (seq 0 n)).
Proof.
  intros Hx. apply array_length_of_Some in Hx as [HL Hn]. unfold Array_from.
  rewrite HL. destruct (Z.leb_spec (Z.of_nat n) max_array_length); [|lia].
  by rewrite Nat2Z.id.
Qed.

Lemma mapM_replicate {A : Type} (c : completion A) (n : nat) :
  mapM (λ _ : unit, c) (replicate n tt)
  = match n, c with
    | O, _ => Normal []
    | _, Normal a => Normal (replicate n a)
    | _, Throw e => Throw e
    end.
Proof.
  induction n as [|n IH]; [done|]. simpl. rewrite IH.
  destruct c as [a|e]; [|done]. by destruct n.
Qed.

Section Spectrogram.
Context {M : MathLib}.

Lemma freqBins_pos (windowSize : nat) : 1 ≤ freqBins windowSize.
Proof. unfold freqBins. assert (0 ≤ Z.of_nat windowSize / 2) by (apply Z.div_pos; lia). lia. Qed.

(** The two nested loops fill the whole matrix, cell by cell. *)
Lemma stft_loops (data : list number) (windowSize : nat) (hop : Z) (rows cols : nat) :
  for_loop 0 cols (λ windowIdx power,
    let start := Z.of_nat windowIdx * hop in
    let windowData := slice data start (start + Z.of_nat windowSize) in
    let windowed := hann windowSize windowData in
    for_loop 0 rows (λ freqIdx power,
      let '(real, imag) := dft_bin windowSize windowed freqIdx in
      matrix_set power freqIdx windowIdx
        (Math_log10 (real * real + imag * imag + epsilon)%num)) power)
    (replicate rows (replicate cols (Fin 0)))
  = map (λ k, map (λ w, cell data windowSize hop k w) (seq 0 cols)) (seq 0 rows).
Proof.
  set (c := cell data windowSize hop).
  set (row := λ (m k : nat), map (λ w, if decide (w < m)%nat then c k w else Fin 0) (seq 0 cols)).
  set (P := λ (m : nat) (p : list (list number)), p = map (row m) (seq 0 rows)).
  assert (Hfinal : P cols (for_loop 0 cols (λ windowIdx power,
    for_loop 0 rows (λ freqIdx power,
      matrix_set power freqIdx windowIdx (c freqIdx windowIdx)) power)
    (replicate rows (replicate cols (Fin 0))))).
  { apply for_loop_ind; [lia| |].
    - unfold P, row. rewrite (replicate_map_seq _ rows).
      apply map_ext. intros k. rewrite replicate_map_seq.
      apply map_ext. intros w. case_decide; [lia|done].
    - intros w p Hw ->.
      set (Q := λ (k : nat) (p : list (list number)),
             p = map (λ k', row (if decide (k' < k)%nat then S w else w) k') (seq 0 rows)).
      assert (HQ : Q rows (for_loop 0 rows (λ freqIdx power,
                matrix_set power freqIdx w (c freqIdx w)) (map (row w) (seq 0 rows)))).
      { apply for_loop_ind; [lia| |].
        - unfold Q. apply map_ext. intros k'. case_decide; [lia|done].
        - intros k p Hk ->. unfold Q, matrix_set.
          rewrite lookup_map_seq. case_decide; [|lia]. case_decide; [lia|].
          assert (Hrow : <[w := c k w]> (row w k) = row (S w) k).
          { unfold row.
            rewrite <- (insert_map_seq
              (λ w', if decide (w' < w)%nat then c k w' else Fin 0)
              (λ w', if decide (w' < S w)%nat then c k w' else Fin 0) cols w).
            - f_equal. case_decide; [done|lia].
            - intros j Hj. repeat case_decide; (done || lia). }
          rewrite Hrow.
          rewrite <- (insert_map_seq
            (λ k', row (if decide (k' < k)%nat then S w else w) k')
            (λ k', row (if decide (k' < S k)%nat then S w else w) k') rows k).
          + f_equal. case_decide; [done|lia].
          + intros j Hj. repeat case_decide; (done || lia). }
      unfold Q in HQ. rewrite HQ. unfold P. apply map_ext_in. intros k Hk.
      apply in_seq in Hk. case_decide; [done|lia]. }
  unfold P in Hfinal.
  etransitivity; [|etransitivity; [exact Hfinal|]].
  - apply for_loop_ext. intros w p _. cbv zeta.
    apply for_loop_ext. intros k q _. unfold c, cell. cbv zeta.
    by destruct (dft_bin _ _ _).
  - apply map_ext. intros k. unfold row. apply map_ext_in. intros w Hw.
    apply in_seq in Hw. case_decide; [done|lia].
Qed.

Lemma bind_Normal {A B : Type} (a : A) (k : A → completion B) :
  (Normal a ≫= k) = k a.
Proof. reflexivity. Qed.

Lemma Array_fill_valid {A : Type} (x : number) (n : nat) (v : A) :
  array_length_of x = Some n → Array_fill x v = Normal (replicate n v).
Proof. intros Hx. unfold Array_fill. by rewrite Hx. Qed.

Lemma Array_fill_invalid {A : Type} (x : number) (v : A) :
  array_length_of x = None → Array_fill x v = Throw RangeError.
Proof. intros Hx. unfold Array_fill. by rewrite Hx. Qed.

Lemma Array_from_big {A : Type} (z : Z) (f : nat → A) :
  max_array_length < z → Array_from (of_Z z) f = Throw RangeError.
Proof.
  intros Hz. unfold Array_from, of_Z, ToLength. rewrite Qfloor_Z.
  destruct (Z.leb_spec (Z.min (Z.max z 0) (2 ^ 53 - 1)) max_array_length); [|done].
  unfold max_array_length in *. lia.
Qed.

Lemma generateSpectrogram_Normal (data : list number) (sfreq : Q) (windowSize : nat)
    (overlap : Q) (cols : nat) :
  freqBins windowSize ≤ max_array_length →
  array_length_of (numWindows (length data) windowSize overlap) = Some cols →
  generateSpectrogram data sfreq windowSize overlap
  = Normal (spectrogram_of data sfreq windowSize overlap cols).
Proof.
  intros Hfb Hn. pose proof (freqBins_pos windowSize) as Hpos.
  unfold generateSpectrogram.
  assert (Hrows : array_length_of (of_Z (freqBins windowSize))
                  = Some (Z.to_nat (freqBins windowSize))).
  { rewrite array_length_of_Z. case_decide; [done|lia]. }
  rewrite (Array_from_valid _ _ _ Hrows), bind_Normal.
  rewrite (Array_from_valid _ _ _ Hn), bind_Normal.
  rewrite (Array_fill_valid _ _ _ Hrows), bind_Normal.
  rewrite mapM_replicate, (Array_fill_valid _ _ _ Hn).
  destruct (Z.to_nat (freqBins windowSize)) as [|r] eqn:Er; [lia|].
  rewrite bind_Normal. unfold spectrogram_of. cbv zeta. rewrite Er.
  unfold mret, completion_ret. f_equal. f_equal.
  rewrite length_map, length_seq. apply stft_loops.
Qed.

Lemma generateSpectrogram_Throw (data : list number) (sfreq : Q) (windowSize : nat)
    (overlap : Q) :
  max_array_length < freqBins windowSize
  ∨ array_length_of (numWindows (length data) windowSize overlap) = None →
  generateSpectrogram data sfreq windowSize overlap = Throw RangeError.
Proof.
  intros Hbad. pose proof (freqBins_pos windowSize) as Hpos.
  unfold generateSpectrogram.
  destruct (decide (freqBins windowSize ≤ max_array_length)) as [Hfb|Hfb].
  - destruct Hbad as [?|Hn]; [lia|].
    assert (Hrows : array_length_of (of_Z (freqBins windowSize))
                    = Some (Z.to_nat (freqBins windowSize))).
    { rewrite array_length_of_Z. case_decide; [done|lia]. }
    rewrite (Array_from_valid _ _ _ Hrows), bind_Normal.
    destruct (Array_from _ _) as [ts|[]]; [|done].
    rewrite bind_Normal, (Array_fill_valid _ _ _ Hrows), bind_Normal.
    rewrite mapM_replicate, (Array_fill_invalid _ _ Hn).
    destruct (Z.to_nat (freqBins windowSize)) as [|r] eqn:Er; [lia|]. done.
  - rewrite Array_from_big by lia. done.
Qed.
End Spectrogram.

Lemma numWindows_nonzero_hop (len windowSize : nat) (overlap : Q) :
  hopSize windowSize overlap ≠ 0 →
  numWindows len windowSize overlap
  = of_Z ((Z.of_nat len - Z.of_nat windowSize) / hopSize windowSize overlap + 1).
Proof.
  intros Hhop. unfold numWindows. rewrite div_of_Z_floor by done.
  change (Fin 1) with (of_Z 1). apply add_of_Z.
Qed.

Lemma numWindows_zero_hop (len windowSize : nat) (overlap : Q) :
  hopSize windowSize overlap = 0 →
  array_length_of (numWindows len windowSize overlap) = None.
Proof.
  intros Hhop. unfold numWindows. rewrite Hhop. unfold of_Z. simpl.
  by destruct (inject_Z _ ?= 0)%Q.
Qed.

Section Spectrogram.
Context {M : MathLib}.

(** A call that returns has built the complete spectrogram. *)
Lemma analyze_Normal_inv (data : list number) (sfreq : Q) (windowSize : nat)
    (overlap : Q) (s : SpectrogramData) :
  analyze data sfreq windowSize overlap = Normal s →
  ∃ cols, array_length_of (numWindows (length data) windowSize overlap) = Some cols
          ∧ freqBins windowSize ≤ max_array_length
          ∧ s = spectrogram_of data sfreq windowSize overlap cols.
Proof.
  unfold analyze. intros Hs.
  destruct (decide (freqBins windowSize ≤ max_array_length)) as [Hfb|Hfb].
  - destruct (array_length_of (numWindows (length data) windowSize overlap)) as [cols|] eqn:E.
    + exists cols. repeat split; [done|].
      rewrite (generateSpectrogram_Normal _ _ _ _ cols Hfb E) in Hs. congruence.
    + rewrite generateSpectrogram_Throw in Hs by (by right). done.
  - rewrite generateSpectrogram_Throw in Hs by (left; lia). done.
Qed.

Lemma spectrogram_of_shape (data : list number) (sfreq : Q) (windowSize : nat)
    (overlap : Q) (cols : nat) :
  let s := spectrogram_of data sfreq windowSize overlap cols in
  length (frequencies s) = Z.to_nat (freqBins windowSize)
  ∧ length (power s) = Z.to_nat (freqBins windowSize)
  ∧ length (times s) = cols
  ∧ ∀ row, row ∈ power s → length row = cols.
Proof.
  simpl. rewrite !length_map, !length_seq. repeat split.
  intros row Hrow. apply list_elem_of_fmap in Hrow as (k & -> & _).
  by rewrite length_map, length_seq.
Qed.

(** C3 (as amended).  [analyze] validates nothing and signals neither
    [InvalidWindowError] nor [InsufficientSamplesError].  Its only failure
    is the [RangeError] of array construction, raised exactly when the
    computed [numWindows] is not an integer in [[0, 2^32 - 1]] (or
    [freqBins] exceeds [2^32 - 1]); a call that returns has built the
    complete spectrogram.  In particular [hopSize = 0] always fails; with
    [hopSize >= 1] and a buffer shorter than the window, the call returns a
    spectrogram with an empty time axis when
    [windowSize - hopSize <= len] and fails with [RangeError] below that. *)
Theorem analyze_failures (data : list number) (sfreq : Q) (windowSize : nat) (overlap : Q) :
  let N := Z.of_nat (length data) in
  let W := Z.of_nat windowSize in
  let hop := hopSize windowSize overlap in
  (analyze data sfreq windowSize overlap = Throw RangeError ↔
     max_array_length < freqBins windowSize
     ∨ array_length_of (numWindows (length data) windowSize overlap) = None)
  ∧ (∀ s, analyze data sfreq windowSize overlap = Normal s →
       length (frequencies s) = length (power s)
       ∧ ∀ row, row ∈ power s → length row = length (times s))
  ∧ (hop = 0 → analyze data sfreq windowSize overlap = Throw RangeError)
  ∧ (1 ≤ hop → N < W → W ≤ max_array_length →
       (W - hop ≤ N →
          ∃ s, analyze data sfreq windowSize overlap = Normal s
               ∧ times s = [] ∧ ∀ row, row ∈ power s → row = [])
       ∧ (N < W - hop → analyze data sfreq windowSize overlap = Throw RangeError)).
Proof.
  intros N W hop. split; [|split; [|split]].
  - split.
    + intros Ht.
      destruct (decide (freqBins windowSize ≤ max_array_length)) as [Hfb|Hfb]; [|left; lia].
      destruct (array_length_of (numWindows (length data) windowSize overlap)) as [cols|] eqn:E;
        [|by right].
      unfold analyze in Ht. by rewrite (generateSpectrogram_Normal _ _ _ _ cols Hfb E) in Ht.
    + apply generateSpectrogram_Throw.
  - intros s Hs. apply analyze_Normal_inv in Hs as (cols & _ & _ & ->).
    destruct (spectrogram_of_shape data sfreq windowSize overlap cols) as (Hf & Hp & Ht & Hr).
    split; [congruence|]. intros row Hrow. rewrite Ht. by apply Hr.
  - intros Hhop. apply generateSpectrogram_Throw. right. by apply numWindows_zero_hop.
  - intros Hhop HN HW.
    assert (Hfb : freqBins windowSize ≤ max_array_length).
    { unfold freqBins. fold W. change max_array_length with 4294967295 in *.
      assert (2 * (W / 2) ≤ W) by (apply Z.mul_div_le; lia). lia. }
    pose proof (numWindows_nonzero_hop (length data) windowSize overlap ltac:(fold hop; lia)) as Hn.
    fold N W hop in Hn. split.
    + intros Hlo. assert (Hd : (N - W) / hop = -1).
      { symmetry. apply (Z.div_unique _ _ _ (N - W + hop)); lia. }
      rewrite Hd in Hn. change (-1 + 1) with 0 in Hn.
      exists (spectrogram_of data sfreq windowSize overlap 0).
      split; [|split; [done|]].
      * apply generateSpectrogram_Normal; [done|]. by rewrite Hn.
      * intros row Hrow.
        destruct (spectrogram_of_shape data sfreq windowSize overlap 0) as (_ & _ & _ & Hr).
        apply Hr in Hrow. by destruct row.
    + intros Hlo. apply generateSpectrogram_Throw. right. rewrite Hn, array_length_of_Z.
      case_decide; [|done].
      assert ((N - W) / hop < -1); [|lia]. apply Z.div_lt_upper_bound; lia.
Qed.
End Spectrogram.

Lemma analyze_failures_witness :
  @analyze ApproxMath (replicate 300 (Fin 0)) 250 256 1 = Throw RangeError.
Proof.
  destruct (@analyze_failures ApproxMath (replicate 300 (Fin 0)) 250 256 1)
    as (_ & _ & Hzero & _).
  apply Hzero. reflexivity.
Defined.

(** C3 as stated fails: a buffer of 200 samples, shorter than the window of
    256, is analyzed without error into a spectrogram with no time window;
    and with [overlap = 3/2] the hop is [-128 < 1], yet the call returns a
    spectrogram with one time window. *)
Lemma analyze_returns_without_validation :
  (∃ s, @analyze ApproxMath (replicate 200 (Fin 0)) 250 256 (1 # 2) = Normal s
        ∧ length (frequencies s) = 129%nat ∧ times s = [])
  ∧ hopSize 256 (3 # 2) = -128
  ∧ (∃ s, @analyze ApproxMath (replicate 200 (Fin 0)) 250 256 (3 # 2) = Normal s
          ∧ length (frequencies s) = 129%nat ∧ length (times s) = 1%nat).
Proof.
  split; [|split; [reflexivity|]].
  - exists (@spectrogram_of ApproxMath (replicate 200 (Fin 0)) 250 256 (1 # 2) 0).
    split; [|split; reflexivity].
    apply (@generateSpectrogram_Normal ApproxMath); [vm_compute; discriminate|reflexivity].
  - exists (@spectrogram_of ApproxMath (replicate 200 (Fin 0)) 250 256 (3 # 2) 1).
    split; [|split; reflexivity].
    apply (@generateSpectrogram_Normal ApproxMath); [vm_compute; discriminate|reflexivity].
Qed.

Lemma frequency_at_Fin (sfreq : Q) (windowSize k : nat) :
  windowSize ≠ 0%nat →
  frequency_at sfreq windowSize k
  = Fin (Qred (Qred (inject_Z (Z.of_nat k) * sfreq) / inject_Z (Z.of_nat windowSize))).
Proof.
  intros Hw. unfold frequency_at, of_nat, of_Z.
  change (Fin (inject_Z (Z.of_nat k)) * Fin sfreq)%num
    with (Fin (Qred (inject_Z (Z.of_nat k) * sfreq))).
  apply div_Fin_nonzero. intros Hz. unfold Qeq in Hz. simpl in Hz. lia.
Qed.

Lemma frequency_at_lt (sfreq : Q) (windowSize j k : nat) :
  (0 < sfreq)%Q → windowSize ≠ 0%nat → (j < k)%nat →
  Num.ltb (frequency_at sfreq windowSize j) (frequency_at sfreq windowSize k) = true.
Proof.
  intros Hs Hw Hjk. rewrite !frequency_at_Fin by done. apply ltb_Fin.
  rewrite !Qred_correct. unfold Qdiv. apply Qmult_lt_compat_r.
  - apply Qinv_lt_0_compat. change 0%Q with (inject_Z 0). rewrite <- Zlt_Qlt. lia.
  - apply Qmult_lt_compat_r; [done|]. rewrite <- Zlt_Qlt. lia.
Qed.

Lemma frequency_at_nyquist (sfreq : Q) (windowSize k : nat) :
  (0 < sfreq)%Q → windowSize ≠ 0%nat → Z.of_nat k < freqBins windowSize →
  Num.leb (frequency_at sfreq windowSize k) (Fin sfreq / Fin 2)%num = true.
Proof.
  intros Hs Hw Hk. rewrite frequency_at_Fin by done.
  rewrite div_Fin_nonzero by done. apply leb_Fin. rewrite !Qred_correct.
  assert (Hw0 : (0 < inject_Z (Z.of_nat windowSize))%Q).
  { change 0%Q with (inject_Z 0). rewrite <- Zlt_Qlt. lia. }
  apply Qle_shift_div_r; [done|].
  assert (H2k : (inject_Z (Z.of_nat k) * 2 <= inject_Z (Z.of_nat windowSize))%Q).
  { change 2%Q with (inject_Z 2). rewrite <- inject_Z_mult, <- Zle_Qle.
    unfold freqBins in Hk.
    pose proof (Z.mul_div_le (Z.of_nat windowSize) 2 ltac:(lia)). lia. }
  assert (Hm : (inject_Z (Z.of_nat k) * 2 * (sfreq / 2)
                <= inject_Z (Z.of_nat windowSize) * (sfreq / 2))%Q).
  { apply Qmult_le_compat_r; [done|]. apply Qle_shift_div_l; lra. }
  assert (He : inject_Z (Z.of_nat k) * sfreq == inject_Z (Z.of_nat k) * 2 * (sfreq / 2))
    by field.
  by rewrite He, (Qmult_comm (sfreq / 2)).
Qed.

Section Spectrogram.
Context {M : MathLib}.

Lemma for_loop_pair {A B : Type} (f : nat → A → A) (g : nat → B → B) (n : nat) (a : A) (b : B) :
  for_loop 0 n (λ i acc, (f i acc.1, g i acc.2)) (a, b)
  = (for_loop 0 n f a, for_loop 0 n g b).
Proof.
  induction n as [|n IH]; [done|]. rewrite !for_loop_S by lia. by rewrite IH.
Qed.

Lemma dft_bin_sums (windowSize : nat) (x : list number) (k : nat) :
  dft_bin windowSize x k = (dft_real windowSize x k, dft_imag windowSize x k).
Proof.
  unfold dft_bin, dft_real, dft_imag.
  rewrite <- (for_loop_sum_imap (λ n xn,
    (xn * Math_cos (Fin (-2) * Math_PI * of_nat k * of_nat n / of_nat windowSize))%num)).
  rewrite <- (for_loop_sum_imap (λ n xn,
    (xn * Math_sin (Fin (-2) * Math_PI * of_nat k * of_nat n / of_nat windowSize))%num)).
  apply (for_loop_pair
    (λ n acc, (acc + array_get x (Z.of_nat n)
                     * Math_cos (Fin (-2) * Math_PI * of_nat k * of_nat n / of_nat windowSize))%num)
    (λ n acc, (acc + array_get x (Z.of_nat n)
                     * Math_sin (Fin (-2) * Math_PI * of_nat k * of_nat n / of_nat windowSize))%num)).
Qed.

(** From a non-negative start, [slice] takes the samples of [[a, b)]. *)
Lemma slice_window (data : list number) (a b : Z) :
  0 ≤ a ≤ b → slice data a b = window data a b.
Proof.
  intros Hab. unfold slice, window.
  destruct (Z.ltb_spec a 0); [lia|]. destruct (Z.ltb_spec b 0); [lia|].
  destruct (decide (b ≤ Z.of_nat (length data))) as [Hb|Hb].
  - by rewrite !Z.min_l by lia.
  - rewrite (Z.min_r b) by lia.
    destruct (decide (a ≤ Z.of_nat (length data))) as [Ha|Ha].
    + rewrite Z.min_l by lia. rewrite !take_ge; [done| |]; rewrite length_drop; lia.
    + rewrite Z.min_r by lia. rewrite !drop_ge by lia. by rewrite !take_nil.
Qed.

(** C7.  For every frequency bin [k] and window index [w] of the output
    of [analyze], [power[k][w]] is [log10(real² + imag² + 1e-10)], where
    [real] and [imag] are the direct DFT sums over the slice
    [data.slice(w·hopSize, w·hopSize + windowSize)], sample [i] of the
    slice multiplied by the Hann factor
    [0.5 - 0.5·cos(2π·i / (windowSize - 1))].  With [hopSize >= 1] that
    slice is the [windowSize] samples with indices in
    [[w·hopSize, w·hopSize + windowSize)]. *)
Theorem spectrogram_power_cell (data : list number) (sfreq : Q) (windowSize : nat)
    (overlap : Q) (s : SpectrogramData) (k w : nat) :
  let hop := hopSize windowSize overlap in
  let a := Z.of_nat w * hop in
  let b := Z.of_nat w * hop + Z.of_nat windowSize in
  let x := imap (λ i val,
             (val * (Fin (1 # 2) - Fin (1 # 2)
                     * Math_cos (Fin 2 * Math_PI * of_nat i / of_Z (Z.of_nat windowSize - 1))))%num)
             (slice data a b) in
  let real := dft_real windowSize x k in
  let imag := dft_imag windowSize x k in
  analyze data sfreq windowSize overlap = Normal s →
  (k < length (frequencies s))%nat → (w < length (times s))%nat →
  (∃ row, power s !! k = Some row
          ∧ row !! w = Some (Math_log10 (real * real + imag * imag + Fin (1 # 10000000000))%num))
  ∧ (1 ≤ hop → slice data a b = window data a b ∧ length (window data a b) = windowSize).
Proof.
  intros hop a b x real imag Hs Hk Hw.
  apply analyze_Normal_inv in Hs as (cols & Hcols & Hfb & ->).
  destruct (spectrogram_of_shape data sfreq windowSize overlap cols) as (Hf & _ & Ht & _).
  rewrite Hf in Hk. rewrite Ht in Hw. split.
  - simpl. rewrite lookup_map_seq. case_decide; [|lia]. eexists. split; [reflexivity|].
    rewrite lookup_map_seq. case_decide; [|lia]. f_equal.
    unfold cell. cbv zeta. rewrite dft_bin_sums. reflexivity.
  - intros Hhop. split; [apply slice_window; subst a b; nia|].
    rewrite numWindows_nonzero_hop in Hcols by (fold hop; lia). fold hop in Hcols.
    rewrite array_length_of_Z in Hcols. case_decide; [|done].
    injection Hcols as <-.
    set (d := Z.of_nat (length data) - Z.of_nat windowSize) in *.
    assert (Hwd : Z.of_nat w ≤ d / hop) by lia.
    assert (Hd0 : 0 ≤ d / hop) by lia.
    pose proof (Z.mul_div_le d hop ltac:(lia)) as Hmd.
    assert (Hwh : Z.of_nat w * hop ≤ d) by nia.
    unfold window. rewrite length_take, length_drop. subst a b d. lia.
Qed.

Lemma spectrogram_shape_general (data : list number) (sfreq : Q) (windowSize : nat) (overlap : Q) :
  let N := Z.of_nat (length data) in
  let W := Z.of_nat windowSize in
  let hop := hopSize windowSize overlap in
  W ≤ N → 1 ≤ hop → (0 < sfreq)%Q → N ≤ max_array_length →
  ∃ s, analyze data sfreq windowSize overlap = Normal s
    ∧ Z.of_nat (length (power s)) = W / 2 + 1
    ∧ Z.of_nat (length (frequencies s)) = W / 2 + 1
    ∧ Z.of_nat (length (times s)) = (N - W) / hop + 1
    ∧ (∀ row, row ∈ power s → length row = length (times s))
    ∧ (∀ k, (k < length (frequencies s))%nat →
         frequencies s !! k = Some (of_nat k * Fin sfreq / of_nat windowSize)%num)
    ∧ (∀ j k fj fk, (j < k)%nat →
         frequencies s !! j = Some fj → frequencies s !! k = Some fk →
         Num.ltb fj fk = true)
    ∧ (∀ f, f ∈ frequencies s → Num.leb f (Fin sfreq / Fin 2)%num = true).
Proof.
  intros N W hop HW Hhop Hs HN.
  assert (HW0 : windowSize ≠ 0%nat).
  { intros ->. unfold hop, hopSize in Hhop.
    rewrite (Qfloor_comp _ 0) in Hhop by apply Qmult_0_l. by apply Hhop. }
  assert (Hd0 : 0 ≤ (N - W) / hop) by (apply Z.div_pos; lia).
  assert (Hd1 : (N - W) / hop ≤ N - W) by (apply Z.div_le_upper_bound; nia).
  assert (Hfb : freqBins windowSize ≤ max_array_length).
  { unfold freqBins. fold W. change max_array_length with 4294967295 in *.
    assert (2 * (W / 2) ≤ W) by (apply Z.mul_div_le; lia). lia. }
  pose proof (freqBins_pos windowSize) as Hfb1.
  set (cols := Z.to_nat ((N - W) / hop + 1)).
  assert (Hcols : array_length_of (numWindows (length data) windowSize overlap) = Some cols).
  { rewrite numWindows_nonzero_hop by (fold hop; lia). fold N W hop.
    rewrite array_length_of_Z. case_decide; [done|lia]. }
  exists (spectrogram_of data sfreq windowSize overlap cols).
  destruct (spectrogram_of_shape data sfreq windowSize overlap cols) as (Hf & Hp & Ht & Hr).
  split; [by apply generateSpectrogram_Normal|].
  split; [rewrite Hp; unfold freqBins in *; fold W in Hfb1 |- *; lia|].
  split; [rewrite Hf; unfold freqBins in *; fold W in Hfb1 |- *; lia|].
  split; [rewrite Ht; unfold cols; lia|].
  split; [intros row Hrow; rewrite Ht; by apply Hr|].
  split; [|split].
  - intros k Hk. rewrite Hf in Hk. simpl. rewrite lookup_map_seq.
    case_decide; [done|lia].
  - intros j k fj fk Hjk. simpl. rewrite !lookup_map_seq.
    repeat case_decide; try done. intros [= <-] [= <-]. by apply frequency_at_lt.
  - intros f Hf'. simpl in Hf'. apply list_elem_of_fmap in Hf' as (k & -> & Hk).
    apply elem_of_seq in Hk. apply frequency_at_nyquist; [done..|lia].
Qed.
(** C5.  For every input with [len(samples) >= windowSize] and
    [hopSize >= 1] (sampling rate positive, buffer a JavaScript array) the
    spectrogram returned by [analyze] has [floor(windowSize/2) + 1] power
    rows and as many frequencies, every row as long as the time axis, which
    has [floor((len - windowSize)/hopSize) + 1] entries; [frequencies[k]]
    is [k·samplingRate/windowSize], strictly increasing and at most
    [samplingRate/2].  2500 samples at 250 Hz with window 256 and overlap
    0.5 give 129 bins, 18 windows and top frequency 125; 256 samples give
    one window. *)
Theorem spectrogram_shape :
  (∀ (data : list number) (sfreq : Q) (windowSize : nat) (overlap : Q),
     let N := Z.of_nat (length data) in
     let W := Z.of_nat windowSize in
     let hop := hopSize windowSize overlap in
     W ≤ N → 1 ≤ hop → (0 < sfreq)%Q → N ≤ max_array_length →
     ∃ s, analyze data sfreq windowSize overlap = Normal s
       ∧ Z.of_nat (length (power s)) = W / 2 + 1
       ∧ Z.of_nat (length (frequencies s)) = W / 2 + 1
       ∧ Z.of_nat (length (times s)) = (N - W) / hop + 1
       ∧ (∀ row, row ∈ power s → length row = length (times s))
       ∧ (∀ k, (k < length (frequencies s))%nat →
            frequencies s !! k = Some (of_nat k * Fin sfreq / of_nat windowSize)%num)
       ∧ (∀ j k fj fk, (j < k)%nat →
            frequencies s !! j = Some fj → frequencies s !! k = Some fk →
            Num.ltb fj fk = true)
       ∧ (∀ f, f ∈ frequencies s → Num.leb f (Fin sfreq / Fin 2)%num = true))
  ∧ (∀ data : list number, length data = 2500%nat →
       ∃ s, analyze data 250 256 (1 # 2) = Normal s
         ∧ length (frequencies s) = 129%nat ∧ length (power s) = 129%nat
         ∧ length (times s) = 18%nat
         ∧ (∀ row, row ∈ power s → length row = 18%nat)
         ∧ last (frequencies s) = Some (Fin 125))
  ∧ (∀ data : list number, length data = 256%nat →
       ∃ s, analyze data 250 256 (1 # 2) = Normal s ∧ length (times s) = 1%nat).
Proof.
  split; [exact spectrogram_shape_general|]. split.
  - intros data Hlen.
    destruct (spectrogram_shape_general data 250 256 (1 # 2))
      as (s & Hs & Hp & Hf & Ht & Hrow & Hk & _).
    + rewrite Hlen. lia.
    + vm_compute. discriminate.
    + reflexivity.
    + rewrite Hlen. vm_compute. discriminate.
    + rewrite Hlen in Ht.
      change (Z.of_nat 256 / 2 + 1) with 129 in Hp, Hf.
      change ((Z.of_nat 2500 - Z.of_nat 256) / hopSize 256 (1 # 2) + 1) with 18 in Ht.
      assert (Hf' : length (frequencies s) = 129%nat) by lia.
      assert (Ht' : length (times s) = 18%nat) by lia.
      exists s. split; [done|]. split; [done|]. split; [lia|]. split; [done|].
      split; [intros row Hr; rewrite <- Ht'; by apply Hrow|].
      rewrite last_lookup, Hf'. rewrite Hk by lia. reflexivity.
  - intros data Hlen.
    destruct (spectrogram_shape_general data 250 256 (1 # 2))
      as (s & Hs & _ & _ & Ht & _).
    + rewrite Hlen. lia.
    + vm_compute. discriminate.
    + reflexivity.
    + rewrite Hlen. vm_compute. discriminate.
    + rewrite Hlen in Ht.
      change ((Z.of_nat 256 - Z.of_nat 256) / hopSize 256 (1 # 2) + 1) with 1 in Ht.
      exists s. split; [done|]. lia.
Qed.

End Spectrogram.

Lemma spectrogram_shape_witness :
  ∃ s, @analyze ApproxMath (replicate 2500 (Fin 0)) 250 256 (1 # 2) = Normal s
    ∧ Z.of_nat (length (frequencies s)) = 129
    ∧ Z.of_nat (length (times s)) = 18.
Proof.
  destruct (proj1 (@spectrogram_shape ApproxMath) (replicate 2500 (Fin 0)) 250%Q 256%nat (1 # 2))
    as (s & Hs & _ & Hf & Ht & _).
  - vm_compute. discriminate.
  - vm_compute. discriminate.
  - reflexivity.
  - vm_compute. discriminate.
  - exists s. split; [exact Hs|]. split; [exact Hf|exact Ht].
Defined.

Lemma spectrogram_power_cell_witness :
  let data := map of_Z [1; 2; 3; 4; 5; 6; 7; 8] in
  let s := @spectrogram_of ApproxMath data 8 4 (1 # 2) 3 in
  @analyze ApproxMath data 8 4 (1 # 2) = Normal s
  ∧ ∃ row v, power s !! 1%nat = Some row ∧ row !! 2%nat = Some v.
Proof.
  intros data s.
  assert (Hs : @analyze ApproxMath data 8 4 (1 # 2) = Normal s).
  { apply (@generateSpectrogram_Normal ApproxMath); [vm_compute; discriminate|reflexivity]. }
  split; [exact Hs|].
  destruct (@spectrogram_power_cell ApproxMath data 8 4 (1 # 2) s 1 2 Hs)
    as ((row & Hrow & Hv) & _).
  - simpl. lia.
  - simpl. lia.
  - exists row. eexists. split; [exact Hrow|exact Hv].
Defined.

(** [lo <= f <= hi] *)
(** The rows of the power matrix whose frequency-axis value lies in the band. *)
Section Bands.
Context (lo hi : number).

Lemma band_indices_cons (from : nat) (f : number) (fs : list number) :
  band_indices lo hi from (f :: fs)
  = if in_band lo hi f then from :: band_indices lo hi (S from) fs else band_indices lo hi (S from) fs.
Proof.
  unfold band_indices. rewrite imap_cons. simpl List.filter.
  rewrite Nat.add_0_r.
  rewrite (imap_ext _ (λ idx freq, (freq, (S from + idx)%nat))) by (intros; simpl; f_equal; lia).
  unfold in_band, Num.geb. by destruct (Num.leb lo f && Num.leb f hi).
Qed.

Lemma band_indices_nil (from : nat) (fs : list number) :
  band_indices lo hi from fs = [] ↔ existsb (in_band lo hi) fs = false.
Proof.
  revert from. induction fs as [|f fs IH]; intros from; [done|].
  rewrite band_indices_cons. simpl. destruct (in_band lo hi f); simpl; [done|]. apply IH.
Qed.

Lemma includes_band_indices (from : nat) (fs : list number) (j : nat) :
  includes (band_indices lo hi from fs) j = true ↔
  (from ≤ j)%nat ∧ ∃ f, fs !! (j - from)%nat = Some f ∧ in_band lo hi f = true.
Proof.
  revert from. induction fs as [|f fs IH]; intros from.
  - split; [done|]. by intros (_ & f & Hf & _).
  - rewrite band_indices_cons. destruct (in_band lo hi f) eqn:Ef.
    + unfold includes. simpl. rewrite orb_true_iff. fold (includes (band_indices lo hi (S from) fs) j).
      rewrite IH, Nat.eqb_eq. split.
      * intros [->|(Hj & f' & Hf' & Hb)].
        -- split; [lia|]. exists f. by rewrite Nat.sub_diag.
        -- split; [lia|]. exists f'. split; [|done].
           replace (j - from)%nat with (S (j - S from)) by lia. done.
      * intros (Hj & f' & Hf' & Hb). destruct (decide (j = from)) as [->|Hne]; [by left|].
        right. split; [lia|]. exists f'. split; [|done].
        replace (j - from)%nat with (S (j - S from)) in Hf' by lia. done.
    + rewrite IH. split.
      * intros (Hj & f' & Hf' & Hb). split; [lia|]. exists f'. split; [|done].
        replace (j - from)%nat with (S (j - S from)) by lia. done.
      * intros (Hj & f' & Hf' & Hb). destruct (decide (j = from)) as [->|Hne].
        -- rewrite Nat.sub_diag in Hf'. simpl in Hf'. congruence.
        -- split; [lia|]. exists f'. split; [|done].
           replace (j - from)%nat with (S (j - S from)) in Hf' by lia. done.
Qed.

(** Selecting rows by membership of their index selects the rows paired
    with a frequency of the band. *)
Lemma filteri_band (fs : list number) (rows : list (list number)) (from : nat) :
  filteri (λ freqIdx _, includes (band_indices lo hi 0 fs) freqIdx) from rows
  = map snd (List.filter (λ fr : number * list number, in_band lo hi fr.1)
               (zip (drop from fs) rows)).
Proof.
  revert from. induction rows as [|r rows IH]; intros from.
  - by destruct (drop from fs).
  - simpl filteri. rewrite IH. destruct (fs !! from) as [f|] eqn:Ef.
    + rewrite (drop_S _ _ _ Ef). simpl.
      destruct (in_band lo hi f) eqn:Eb.
      * assert (Hin : includes (band_indices lo hi 0 fs) from = true).
        { apply includes_band_indices. split; [lia|]. exists f. by rewrite Nat.sub_0_r. }
        by rewrite Hin.
      * destruct (includes (band_indices lo hi 0 fs) from) eqn:Hin; [|done].
        apply includes_band_indices in Hin as (_ & f' & Hf' & Hb).
        rewrite Nat.sub_0_r in Hf'. congruence.
    + apply lookup_ge_None in Ef. rewrite !drop_ge by lia. simpl.
      destruct (includes (band_indices lo hi 0 fs) from) eqn:Hin; [|done].
      apply includes_band_indices in Hin as (_ & f' & Hf' & Hb).
      rewrite Nat.sub_0_r in Hf'. apply lookup_lt_Some in Hf'. lia.
Qed.

Lemma getBandPower_band_mean (s : SpectrogramData) :
  getBandPower s lo hi = band_mean s lo hi.
Proof.
  unfold getBandPower, band_mean. cbv zeta.
  change (map snd (List.filter _ (imap _ (frequencies s))))
    with (band_indices lo hi 0 (frequencies s)).
  destruct (existsb (in_band lo hi) (frequencies s)) eqn:Ee.
  - rewrite filteri_band. 
    destruct (band_indices lo hi 0 (frequencies s)) as [|i rest] eqn:Ei; [|reflexivity].
    apply band_indices_nil in Ei. congruence.
  - apply (band_indices_nil 0) in Ee. by rewrite Ee.
Qed.
End Bands.

(** The band power of finite cells, with the sum written as [Qsum]. *)
Lemma band_mean_average (s : SpectrogramData) (lo hi : number) (qs : list Q) :
  existsb (in_band lo hi) (frequencies s) = true →
  concat (band_rows s lo hi) = map Fin qs →
  qs ≠ [] →
  band_mean s lo hi = Fin (Qred (Qsum qs / inject_Z (Z.of_nat (length qs)))).
Proof.
  intros Hbin Hcells Hne. unfold band_mean, mean. rewrite Hbin, Hcells.
  destruct (reduce_sum_Fin qs) as (t & -> & Ht).
  rewrite length_map. unfold of_nat, of_Z.
  rewrite div_Fin_nonzero by (by apply inject_Z_length_nonzero).
  f_equal. apply Qred_complete. by rewrite Ht.
Qed.

(** C8.  For every spectrogram, [aggregate] returns for each band (delta
    0.5–4, theta 4–8, alpha 8–13, beta 13–30, gamma 30–100, bounds
    included) the arithmetic mean of all the power values in the rows whose
    frequency-axis value lies in the band, flattened over the time
    windows; a band without any matching frequency bin yields exactly 0.
    For finite power values the mean is the quotient of their sum [Qsum],
    which is independent of the code's [reduce], by their number. *)
Theorem band_powers (s : SpectrogramData) :
  aggregate s =
    {| delta := band_mean s (Fin (1 # 2)) (Fin 4);
       theta := band_mean s (Fin 4) (Fin 8);
       alpha := band_mean s (Fin 8) (Fin 13);
       beta := band_mean s (Fin 13) (Fin 30);
       gamma := band_mean s (Fin 30) (Fin 100) |}
  ∧ (∀ lo hi, Forall (λ f, in_band lo hi f = false) (frequencies s) →
       getBandPower s lo hi = Fin 0)
  ∧ (∀ lo hi (qs : list Q),
       existsb (in_band lo hi) (frequencies s) = true →
       concat (band_rows s lo hi) = map Fin qs →
       qs ≠ [] →
       getBandPower s lo hi = Fin (Qred (Qsum qs / inject_Z (Z.of_nat (length qs))))).
Proof.
  split; [|split].
  - unfold aggregate, frequencyBands. by rewrite !getBandPower_band_mean.
  - intros lo hi Hnone. rewrite getBandPower_band_mean. unfold band_mean.
    destruct (existsb (in_band lo hi) (frequencies s)) eqn:Ee; [|done].
    apply existsb_exists in Ee as (f & Hin & Hb). rewrite Forall_forall in Hnone.
    apply list_elem_of_In in Hin. rewrite (Hnone f Hin) in Hb. done.
  - intros lo hi qs Hbin Hcells Hne. rewrite getBandPower_band_mean.
    by apply band_mean_average.
Qed.

(** Five bins at 0 to 4 Hz and two windows: the delta band takes the rows of
    1 to 4 Hz, eight cells of sum 154, and the gamma band has no bin. *)
Lemma band_powers_witness :
  let s := {| frequencies := map of_Z [0; 1; 2; 3; 4]; times := [Fin 0; Fin 1];
              power := map (λ k, [of_Z (k + 1); of_Z (10 * (k + 1))]) [0; 1; 2; 3; 4] |} in
  getBandPower s (Fin (1 # 2)) (Fin 4) = Fin (77 # 4)
  ∧ getBandPower s (Fin 30) (Fin 100) = Fin 0.
Proof.
  intros s. destruct (band_powers s) as (_ & Hnone & Havg). split.
  - rewrite (Havg (Fin (1 # 2)) (Fin 4) [2; 20; 3; 30; 4; 40; 5; 50]%Q);
      [reflexivity|reflexivity|reflexivity|discriminate].
  - apply Hnone. repeat constructor.
Defined.

(** * Further properties of the code *)

(** ** More on the conditioning steps *)

Lemma Qsum_map_plus (qs : list Q) (c : Q) :
  Qsum (map (λ q, q + c)%Q qs) == Qsum qs + inject_Z (Z.of_nat (length qs)) * c.
Proof.
  induction qs as [|q qs IH]; simpl.
  - rewrite Nat2Z.inj_0. change (inject_Z 0) with 0%Q. lra.
  - rewrite IH. rewrite Nat2Z.inj_succ, <- Z.add_1_r, inject_Z_plus.
    change (inject_Z 1) with 1%Q. lra.
Qed.

Lemma Qsum_bounds (qs : list Q) (lo hi : Q) :
  Forall (λ q, lo <= q <= hi)%Q qs →
  (inject_Z (Z.of_nat (length qs)) * lo <= Qsum qs
   <= inject_Z (Z.of_nat (length qs)) * hi)%Q.
Proof.
  induction 1 as [|q qs Hq _ IH]; simpl.
  - rewrite Nat2Z.inj_0. change (inject_Z 0) with 0%Q. lra.
  - rewrite Nat2Z.inj_succ, <- Z.add_1_r, inject_Z_plus.
    change (inject_Z 1) with 1%Q. lra.
Qed.

(** [removeDCOffset] on finite samples subtracts a rational mean. *)
Lemma removeDCOffset_Fin (qs : list Q) :
  qs ≠ [] →
  ∃ μ, μ == Qsum qs / inject_Z (Z.of_nat (length qs))
       ∧ removeDCOffset (map Fin qs) = map (λ q, Fin (Qred (q - μ))) qs.
Proof.
  intros Hne. unfold removeDCOffset.
  destruct (reduce_sum_Fin qs) as (s & -> & Hs).
  rewrite length_map. unfold of_nat, of_Z.
  rewrite div_Fin_nonzero by (by apply inject_Z_length_nonzero).
  eexists. split; [|by rewrite map_map].
  by rewrite Qred_correct, Hs.
Qed.

(** X1.  For every buffer of finite samples, removing the DC offset a
    second time changes nothing, and adding the same constant to every
    sample does not change the result of [removeDCOffset]. *)
Theorem removeDCOffset_idempotent_and_offset_free (qs : list Q) (c : Q) :
  removeDCOffset (removeDCOffset (map Fin qs)) = removeDCOffset (map Fin qs)
  ∧ removeDCOffset (map (λ q, Fin (q + c)) qs) = removeDCOffset (map Fin qs).
Proof.
  destruct qs as [|q0 qs']; [done|]. set (qs := q0 :: qs').
  assert (Hne : qs ≠ []) by done.
  pose proof (inject_Z_length_nonzero qs Hne) as HN.
  destruct (removeDCOffset_Fin qs Hne) as (μ & Hμ & Hr). split.
  - rewrite Hr. rewrite <- (map_map (λ q, Qred (q - μ)) Fin).
    set (rs := map (λ q, Qred (q - μ)) qs).
    assert (Hrs : rs ≠ []) by done.
    destruct (removeDCOffset_Fin rs Hrs) as (μ2 & Hμ2 & Hr2). rewrite Hr2.
    assert (H0 : μ2 == 0).
    { rewrite Hμ2. unfold rs. rewrite Qsum_shift, Hμ, length_map. field. done. }
    unfold rs. rewrite !map_map. apply map_ext. intros q. f_equal.
    rewrite <- (Qcanon.Qred_involutive (q - μ)). apply Qred_complete. rewrite H0, Qred_correct. lra.
  - rewrite <- (map_map (λ q, (q + c)%Q) Fin).
    set (ss := map (λ q, (q + c)%Q) qs).
    assert (Hss : ss ≠ []) by done.
    destruct (removeDCOffset_Fin ss Hss) as (μ' & Hμ' & Hr'). rewrite Hr', Hr.
    assert (Hc : μ' == μ + c).
    { rewrite Hμ', Hμ. unfold ss. rewrite Qsum_map_plus, length_map. field. done. }
    unfold ss. rewrite map_map. apply map_ext. intros q. f_equal.
    apply Qred_complete. rewrite Hc. lra.
Qed.

(** A buffer of zeros and [NaN] is normalized to [NaN] everywhere. *)
Lemma max_fold_zero_or_NaN (l : list number) (h : number) :
  Forall (λ v, v = Fin 0 ∨ v = NaN) l →
  h = Fin 0 ∨ h = NaN →
  foldl max_step h l = Fin 0 ∨ foldl max_step h l = NaN.
Proof.
  intros Hl. revert h. induction Hl as [|v l Hv _ IH]; intros h Hh; [done|].
  simpl. apply IH.
  destruct Hh as [->| ->], Hv as [->| ->]; simpl; auto.
Qed.

Lemma normalize_zero_or_NaN (l : list number) :
  Forall (λ v, v = Fin 0 ∨ v = NaN) l →
  normalize l = replicate (length l) NaN.
Proof.
  intros Hl.
  assert (Hmax : l ≠ [] →
    Math_max (map Math_abs l) = Fin 0 ∨ Math_max (map Math_abs l) = NaN).
  { destruct Hl as [|v0 l' Hv0 Hl']; [done|]. intros _.
    change (Math_max (map Math_abs (v0 :: l')))
      with (foldl max_step (max_step NInf (Math_abs v0)) (map Math_abs l')).
    apply max_fold_zero_or_NaN.
    - rewrite Forall_fmap. eapply Forall_impl; [exact Hl'|].
      intros v [->| ->]; [by left|by right].
    - destruct Hv0 as [->| ->]; simpl; auto. }
  unfold normalize. generalize dependent (Math_max (map Math_abs l)). intros m Hm.
  induction Hl as [|v l0 Hv _ IH]; [done|].
  specialize (Hm ltac:(done)).
  simpl. f_equal.
  - destruct Hm as [->| ->], Hv as [->| ->]; reflexivity.
  - destruct l0; [done|]. apply IH. intros _. exact Hm.
Qed.

Lemma sum_range_zeros (n : nat) (s e : Z) :
  0 ≤ s → e ≤ Z.of_nat n → sum_range (replicate n (Fin 0)) s e = Fin 0.
Proof.
  intros Hs He. destruct (decide (s ≤ e)) as [Hse|Hse].
  - rewrite sum_range_window by (rewrite ?length_replicate; lia).
    unfold window, reduce_sum. rewrite drop_replicate, take_replicate.
    generalize (Init.Nat.min (Z.to_nat (e - s)) (n - Z.to_nat s)). intros k.
    induction k as [|k IH]; [done|]. exact IH.
  - apply sum_range_empty. lia.
Qed.

Lemma removeDCOffset_constant (n : nat) (c : Q) :
  removeDCOffset (replicate n (Fin c)) = replicate n (Fin 0).
Proof.
  destruct n as [|n]; [done|].
  assert (Hrep : ∀ k, replicate k (Fin c) = map Fin (replicate k c))
    by (intros k; by rewrite <- fmap_replicate).
  rewrite Hrep. destruct (removeDCOffset_Fin (replicate (S n) c) ltac:(done)) as (μ & Hμ & ->).
  assert (Hc : μ == c).
  { rewrite Hμ. rewrite length_replicate.
    assert (Hsum : ∀ k, Qsum (replicate k c) == inject_Z (Z.of_nat k) * c).
    { intros k. induction k as [|k IH]; simpl.
      - rewrite Nat2Z.inj_0. change (inject_Z 0) with 0%Q. lra.
      - rewrite IH, Nat2Z.inj_succ, <- Z.add_1_r, inject_Z_plus.
        change (inject_Z 1) with 1%Q. lra. }
    rewrite Hsum. field. intros Hz. unfold Qeq in Hz. simpl in Hz. lia. }
  rewrite (replicate_map_seq (Fin 0)), (replicate_map_seq c), map_map.
  apply map_ext. intros _. f_equal. change 0%Q with (Qred 0).
  apply Qred_complete. rewrite Hc. lra.
Qed.

(** A constant buffer is all zeros after the offset removal, all zeros or
    [0/0] after the moving average, and all [NaN] after the normalisation. *)
Lemma preprocess_constant (n : nat) (c : Q) (sfreq : Q) (cfg : config) :
  preprocess (replicate n (Fin c)) sfreq cfg = replicate n NaN.
Proof.
  unfold preprocess. rewrite removeDCOffset_constant.
  set (lo := or_default _ _). set (hi := or_default _ _).
  rewrite normalize_zero_or_NaN.
  - by rewrite bandpassFilter_length, length_replicate.
  - rewrite bandpassFilter_map, Forall_fmap, Forall_forall. intros i Hi.
    apply elem_of_seq in Hi. rewrite length_replicate in Hi. unfold compose, filtered_at.
    rewrite length_replicate.
    rewrite sum_range_zeros by (unfold start, end_; lia).
    generalize (end_ n sfreq i - start sfreq i). intros d.
    destruct (decide (d = 0)) as [->|Hd]; [by right|]. left.
    unfold of_Z.
    rewrite div_Fin_nonzero by (intros Hz; unfold Qeq in Hz; simpl in Hz; lia).
    apply (f_equal Fin). change 0%Q with (Qred 0) at 2. apply Qred_complete.
    unfold Qdiv. lra.
Qed.

(** X2.  [condition] turns every constant buffer of an integer value [c]
    whose sum [n * c] does not exceed [2^53] in magnitude, of any length (the
    empty and the one-sample buffer included), any sampling rate and any
    cutoffs, into a buffer of the same length that holds only [NaN].  These
    are the constant buffers whose sum and mean the code's doubles compute
    without rounding; for other constants the rounding of the mean can
    leave a non-zero residue, which the normalisation turns into [1] or
    [-1]. *)
Theorem condition_constant_buffer (n : nat) (c : Z) (sfreq : Q) (cfg : config) :
  Z.of_nat n * Z.abs c ≤ 2 ^ 53 →
  condition (replicate n (of_Z c)) sfreq cfg = Normal (replicate n NaN).
Proof. intros _. unfold condition, of_Z. by rewrite preprocess_constant. Qed.

Lemma condition_constant_buffer_witness :
  condition (replicate 300 (of_Z 7)) 250 default_config = Normal (replicate 300 NaN).
Proof. apply condition_constant_buffer. vm_compute. discriminate. Defined.

Lemma window_map_Fin (qs : list Q) (a b : Z) :
  window (map Fin qs) a b = map Fin (take (Z.to_nat (b - a)) (drop (Z.to_nat a) qs)).
Proof. unfold window. by rewrite <- fmap_drop, <- fmap_take. Qed.

(** The mean of finite samples lies between their bounds. *)
Lemma mean_bounds (qs : list Q) (lo hi : Q) :
  qs ≠ [] → Forall (λ q, lo <= q <= hi)%Q qs →
  ∃ r, mean (map Fin qs) = Fin r ∧ (lo <= r <= hi)%Q.
Proof.
  intros Hne Hb. unfold mean. destruct (reduce_sum_Fin qs) as (s & -> & Hs).
  rewrite length_map. unfold of_nat, of_Z.
  pose proof (inject_Z_length_nonzero qs Hne) as HN.
  rewrite div_Fin_nonzero by done. eexists. split; [reflexivity|].
  rewrite Qred_correct, Hs. pose proof (Qsum_bounds qs lo hi Hb) as [H1 H2].
  assert (Hpos : (0 < inject_Z (Z.of_nat (length qs)))%Q).
  { change 0%Q with (inject_Z 0). rewrite <- Zlt_Qlt. destruct qs; [done|]. simpl. lia. }
  split.
  - apply Qle_shift_div_l; [done|]. by rewrite Qmult_comm.
  - apply Qle_shift_div_r; [done|]. by rewrite Qmult_comm.
Qed.

(** X3.  At a sampling rate of at least 20, output sample [i] of
    [bandpassFilter] is the mean of the input samples in the window
    [[max 0 (i - h), min N (i + h))] with [h = floor(windowSize / 2)]: the
    window holds [i], has at most [2 h] samples, and the output lies between
    any bounds of the finite input samples.  The cutoffs are not used. *)
Theorem bandpass_output_is_window_mean (data : list number) (sfreq : Q)
    (lowCutoff highCutoff : number) (i : nat) :
  let h := windowSize sfreq / 2 in
  let s := Z.max 0 (Z.of_nat i - h) in
  let e := Z.min (Z.of_nat (length data)) (Z.of_nat i + h) in
  (20 <= sfreq)%Q → (i < length data)%nat →
  s ≤ Z.of_nat i < e ∧ e - s ≤ 2 * h
  ∧ bandpassFilter data sfreq lowCutoff highCutoff !! i = Some (mean (window data s e))
  ∧ ∀ (qs : list Q) (lo hi : Q),
      data = map Fin qs → Forall (λ q, lo <= q <= hi)%Q qs →
      ∃ r, bandpassFilter data sfreq lowCutoff highCutoff !! i = Some (Fin r)
           ∧ (lo <= r <= hi)%Q.
Proof.
  intros h s e Hs Hi.
  assert (Hws : 2 ≤ windowSize sfreq) by by apply windowSize_large.
  assert (Hh : 1 ≤ h) by (apply Z.div_le_lower_bound; lia).
  assert (Hse : s ≤ Z.of_nat i < e) by lia.
  assert (Hentry : bandpassFilter data sfreq lowCutoff highCutoff !! i
                   = Some (mean (window data s e))).
  { rewrite bandpassFilter_lookup by done. f_equal. unfold filtered_at, start, end_.
    fold h s e. unfold mean. rewrite sum_range_window by lia. f_equal.
    unfold of_nat. f_equal. rewrite window_length by lia. done. }
  split; [done|]. split; [lia|]. split; [done|].
  intros qs lo hi -> Hb. rewrite Hentry, window_map_Fin.
  rewrite length_map in *.
  destruct (mean_bounds (take (Z.to_nat (e - s)) (drop (Z.to_nat s) qs)) lo hi) as (r & Hr & Hlr).
  - intros Hnil. apply (f_equal length) in Hnil.
    rewrite length_take, length_drop in Hnil. simpl in Hnil. lia.
  - by apply Forall_take, Forall_drop.
  - exists r. by rewrite Hr.
Qed.

Lemma bandpass_output_witness :
  bandpassFilter (map Fin [1; 3; 5; 7]%Q) 20 (Fin 1) (Fin 50) !! 2%nat
  = Some (mean [Fin 3; Fin 5]).
Proof.
  destruct (bandpass_output_is_window_mean (map Fin [1; 3; 5; 7]%Q) 20 (Fin 1) (Fin 50) 2)
    as (_ & _ & H & _); [discriminate|simpl; lia|].
  exact H.
Defined.

(** ** Normalization reaches the peak 1 *)

Lemma Forall_Fin_map (l : list number) (P : Q → Prop) :
  Forall (λ x, ∃ b, x = Fin b ∧ P b) l → ∃ bs, l = map Fin bs ∧ Forall P bs.
Proof.
  induction 1 as [|x l (b & -> & Hb) _ (bs & -> & Hbs)].
  - by exists [].
  - exists (b :: bs). split; [done|]. by constructor.
Qed.

Lemma Math_max_Fin_list (qs : list Q) :
  qs ≠ [] →
  ∃ hi, Math_max (map Fin qs) = Fin hi ∧ hi ∈ qs ∧ ∀ q, q ∈ qs → (q <= hi)%Q.
Proof.
  intros Hne. destruct (Math_min_max_Fin qs Hne) as (lo & hi & _ & Hhi & _ & Hin & Hb).
  exists hi. split; [done|]. split; [done|]. intros q Hq. by apply Hb.
Qed.

(** X4.  When the largest absolute value of the buffer is finite and
    not zero, the largest absolute value after [normalize] is exactly 1. *)
Theorem normalize_peak_is_one (l : list number) (m : Q) :
  Math_max (map Math_abs l) = Fin m → ¬ m == 0 →
  ∃ p, Math_max (map Math_abs (normalize l)) = Fin p ∧ p == 1.
Proof.
  intros Hm Hm0. pose proof (max_abs_Fin l m Hm) as Hall.
  destruct (Forall_Fin_map l (λ b, Qabs b <= m)%Q Hall) as (bs & -> & Hbs).
  assert (Hne : bs ≠ []) by (intros ->; discriminate).
  (* the maximum is attained *)
  assert (Habs : map Math_abs (map Fin bs) = map Fin (map Qabs bs))
    by (by rewrite !map_map).
  rewrite Habs in Hm.
  destruct (Math_max_Fin_list (map Qabs bs)) as (hi & Hhi & Hin & _);
    [by destruct bs|].
  rewrite Hm in Hhi. injection Hhi as <-.
  apply list_elem_of_fmap in Hin as (b0 & Hb0 & Hb0in).
  assert (Hpos : (0 < m)%Q).
  { pose proof (Qabs_nonneg b0). rewrite <- Hb0 in H.
    destruct (Qlt_le_dec 0 m); [done|]. exfalso. apply Hm0. lra. }
  (* the normalized buffer *)
  unfold normalize. rewrite Habs, Hm, !map_map.
  set (f := λ b : Q, Qabs (Qred (b / m))).
  change (map (λ x : Q, Math_abs (Fin x / Fin m)) bs) with
    (map (λ x : Q, Math_abs (Fin x / Fin m)%num) bs).
  assert (Hout : map (λ x : Q, Math_abs (Fin x / Fin m)%num) bs = map Fin (map f bs)).
  { rewrite map_map. apply map_ext. intros b. by rewrite div_Fin_nonzero. }
  rewrite Hout.
  destruct (Math_max_Fin_list (map f bs)) as (p & Hp & Hpin & Hpb); [by destruct bs|].
  exists p. split; [done|].
  assert (Hle : (p <= 1)%Q).
  { apply list_elem_of_fmap in Hpin as (b & -> & Hbin). unfold f.
    rewrite Qred_correct. rewrite Forall_forall in Hbs. specialize (Hbs b Hbin).
    unfold Qdiv. rewrite Qabs_Qmult. rewrite (Qabs_pos (/ m)).
    - apply Qle_shift_div_r; lra.
    - apply Qinv_le_0_compat. lra. }
  assert (Hge : (1 <= p)%Q).
  { assert (H1 : (f b0 <= p)%Q) by (apply Hpb, list_elem_of_fmap; eauto).
    assert (Hf : f b0 == 1).
    { unfold f. rewrite Qred_correct. unfold Qdiv. rewrite Qabs_Qmult.
      rewrite (Qabs_pos (/ m)) by (apply Qinv_le_0_compat; lra).
      rewrite <- Hb0. field. lra. }
    lra. }
  lra.
Qed.

Lemma normalize_peak_witness :
  ∃ p, Math_max (map Math_abs (normalize [Fin 2; Fin (-4); Fin 1])) = Fin p ∧ p == 1.
Proof.
  apply (normalize_peak_is_one [Fin 2; Fin (-4); Fin 1] 4); [reflexivity|discriminate].
Defined.

(** ** More on the feature vector *)

Lemma Qsum_nonneg (qs : list Q) : Forall (λ q, 0 <= q)%Q qs → (0 <= Qsum qs)%Q.
Proof. induction 1; simpl; lra. Qed.

Lemma mean_Fin (qs : list Q) :
  qs ≠ [] → ∃ μ, mean (map Fin qs) = Fin μ.
Proof.
  intros Hne. unfold mean. destruct (reduce_sum_Fin qs) as (s & -> & Hs).
  rewrite length_map. unfold of_nat, of_Z.
  rewrite div_Fin_nonzero by (by apply inject_Z_length_nonzero). by eexists.
Qed.

Lemma variance_nonneg (qs : list Q) :
  qs ≠ [] → ∃ v, variance (map Fin qs) = Fin v ∧ (0 <= v)%Q.
Proof.
  intros Hne. unfold variance. destruct (mean_Fin qs Hne) as (μ & ->).
  rewrite map_map.
  set (sq := λ q : Q, Qred (Qred (q - μ) * Qred (q - μ))).
  assert (Hm : map (λ x : Q, Math_pow2 (Fin x - Fin μ)) qs = map Fin (map sq qs)).
  { rewrite map_map. apply map_ext. done. }
  rewrite Hm. destruct (mean_bounds (map sq qs) 0 (Qsum (map sq qs))) as (v & Hv & Hv0 & _).
  - by destruct qs.
  - assert (Hnn : Forall (λ q, 0 <= q)%Q (map sq qs)).
    { rewrite Forall_fmap. apply Forall_true. intros q. unfold compose, sq.
      rewrite Qred_correct. generalize (Qred (q - μ)). intros x.
      destruct (Qlt_le_dec x 0).
      - assert (E : x * x == (- x) * (- x)) by ring.
        rewrite E. apply Qmult_le_0_compat; lra.
      - apply Qmult_le_0_compat; lra. }
    clear Hm. induction Hnn as [|q l Hq Hl IH]; [done|]. constructor.
    + split; [done|]. simpl. pose proof (Qsum_nonneg l Hl). lra.
    + eapply Forall_impl; [exact IH|]. intros x [Hx0 Hx]. split; [done|]. simpl. lra.
  - by exists v.
Qed.

Section Features.
Context {M : MathLib}.

(** X5.  For a non-empty buffer of finite samples the statistical
    features are finite and ordered: minimum <= mean <= maximum, the variance
    and the range are not negative, and the range is maximum - minimum. *)
Theorem statistics_are_ordered (qs : list Q) (rate : Q) :
  qs ≠ [] →
  ∃ features μ v lo hi,
    extract (map Fin qs) rate = Normal features
    ∧ features !! 0%nat = Some (Fin μ)
    ∧ features !! 2%nat = Some (Fin v)
    ∧ features !! 3%nat = Some (Fin lo)
    ∧ features !! 4%nat = Some (Fin hi)
    ∧ features !! 5%nat = Some (Fin (Qred (hi - lo)))
    ∧ (lo <= μ <= hi)%Q ∧ (0 <= v)%Q ∧ (0 <= hi - lo)%Q.
Proof.
  intros Hne.
  destruct (prepareInput_entries (map Fin qs)) as (_ & H0 & _ & H2 & H3 & H4 & H5 & _).
  destruct (Math_min_max_Fin qs Hne) as (lo & hi & Hlo & Hhi & Hloin & _ & Hb).
  destruct (mean_bounds qs lo hi Hne) as (μ & Hμ & Hμb).
  { rewrite Forall_forall. intros q Hq. by apply Hb. }
  destruct (variance_nonneg qs Hne) as (v & Hv & Hv0).
  exists (prepareInput (map Fin qs)), μ, v, lo, hi.
  split; [reflexivity|].
  split; [by rewrite H0; fold (mean (map Fin qs)); rewrite Hμ|].
  split; [by rewrite H2, Hv|].
  split; [by rewrite H3, Hlo|].
  split; [by rewrite H4, Hhi|].
  split; [by rewrite H5, Hlo, Hhi|].
  split; [done|]. split; [done|]. specialize (Hb lo Hloin). lra.
Qed.

Lemma time_feature_short (data : list number) (i : nat) :
  (length data < 64)%nat → (64 ≤ i < 128)%nat → time_feature data i = NaN.
Proof.
  intros Hlen Hi. unfold time_feature.
  set (N := Z.of_nat (length data)).
  assert (HN : N / 64 = 0) by (apply Z.div_small; lia).
  unfold windowEnd. rewrite HN, Z.add_0_r, windowStart_div.
  assert (Hst : (Z.of_nat i - 64) * N / 64 ≤ N).
  { apply Z.div_le_upper_bound; [lia|]. nia. }
  rewrite Z.min_l by lia. rewrite sum_range_empty by lia.
  by rewrite Z.sub_diag.
Qed.

(** X6.  For a buffer of fewer than 64 samples [extract] still returns
    128 features, and all 64 time-window features are [NaN] (every window is
    empty); for the empty buffer the mean, the variance and the frequency
    features are [NaN], the minimum is [+Infinity] and the maximum and the
    range are [-Infinity]. *)
Theorem short_buffer_features (data : list number) (rate : Q) :
  (length data < 64)%nat →
  ∃ features, extract data rate = Normal features
    ∧ length features = 128%nat
    ∧ (∀ i, (64 ≤ i < 128)%nat → features !! i = Some NaN)
    ∧ (data = [] →
         features !! 0%nat = Some NaN ∧ features !! 2%nat = Some NaN
         ∧ features !! 3%nat = Some PInf ∧ features !! 4%nat = Some NInf
         ∧ features !! 5%nat = Some NInf
         ∧ ∀ i, (6 ≤ i < 64)%nat → features !! i = Some NaN).
Proof.
  intros Hlen. exists (prepareInput data). split; [reflexivity|].
  destruct (prepareInput_entries data) as (HL & H0 & _ & H2 & H3 & H4 & H5 & Hf & Ht).
  split; [done|]. split.
  - intros i Hi. rewrite Ht by done. f_equal. by apply time_feature_short.
  - intros ->. rewrite H0, H2, H3, H4, H5.
    repeat (split; [reflexivity|]). intros i Hi. by rewrite Hf.
Qed.
End Features.

Lemma statistics_are_ordered_witness :
  ∃ features μ, @extract ApproxMath (map Fin [3; 1; 2]%Q) 250 = Normal features
    ∧ features !! 0%nat = Some (Fin μ) ∧ (1 <= μ <= 3)%Q.
Proof.
  destruct (@statistics_are_ordered ApproxMath [3; 1; 2]%Q 250)
    as (features & μ & v & lo & hi & Hf & H0 & _ & H3 & H4 & _ & Hb & _); [discriminate|].
  exists features, μ. split; [exact Hf|]. split; [exact H0|].
  injection Hf as <-. vm_compute in H3, H4.
  injection H3 as <-. injection H4 as <-. exact Hb.
Defined.

Lemma short_buffer_features_witness :
  ∃ features, @extract ApproxMath [Fin 1; Fin 2; Fin 3] 250 = Normal features
    ∧ features !! 100%nat = Some NaN.
Proof.
  destruct (@short_buffer_features ApproxMath [Fin 1; Fin 2; Fin 3] 250)
    as (features & Hf & _ & Ht & _); [simpl; lia|].
  exists features. split; [exact Hf|]. apply Ht. lia.
Defined.

(** ** More on spectrograms and band powers *)

Lemma band_mean_no_bin (s : SpectrogramData) (lo hi : number) :
  Forall (λ f, in_band lo hi f = false) (frequencies s) → band_mean s lo hi = Fin 0.
Proof.
  intros Hnone. unfold band_mean.
  destruct (existsb (in_band lo hi) (frequencies s)) eqn:Ee; [|done].
  apply existsb_exists in Ee as (f & Hin & Hb). rewrite Forall_forall in Hnone.
  apply list_elem_of_In in Hin. rewrite (Hnone f Hin) in Hb. done.
Qed.

Lemma leb_Fin_false (a b : Q) : Num.leb (Fin a) (Fin b) = false ↔ (b < a)%Q.
Proof.
  simpl. rewrite Qgt_alt. destruct (a ?= b)%Q; split; intros H; try done.
Qed.

Section Spectrogram.
Context {M : MathLib}.

(** Every frequency of a returned spectrogram is [NaN] or at most the
    Nyquist frequency. *)
Lemma frequencies_below_nyquist (data : list number) (sfreq : Q) (windowSize : nat)
    (overlap : Q) (s : SpectrogramData) :
  analyze data sfreq windowSize overlap = Normal s → (0 < sfreq)%Q →
  Forall (λ f, f = NaN ∨ ∃ x, f = Fin x ∧ (x <= sfreq / 2)%Q) (frequencies s).
Proof.
  intros Hs Hpos. apply analyze_Normal_inv in Hs as (cols & _ & _ & ->).
  simpl. rewrite Forall_fmap, Forall_forall. intros k Hk. apply elem_of_seq in Hk.
  unfold compose. destruct (decide (windowSize = 0%nat)) as [->|Hw].
  - left. assert (k = 0%nat) as -> by (change (Z.to_nat (freqBins 0)) with 1%nat in Hk; lia).
    reflexivity.
  - right. pose proof (frequency_at_nyquist sfreq windowSize k Hpos Hw ltac:(lia)) as Hle.
    rewrite frequency_at_Fin in * by done. eexists. split; [reflexivity|].
    rewrite div_Fin_nonzero in Hle by done. apply leb_Fin in Hle.
    by rewrite (Qred_correct (sfreq / 2)) in Hle.
Qed.

(** X7.  In a spectrogram returned by [analyze] for a positive
    sampling rate, a band that starts above half the sampling rate contains
    no frequency bin and its power is exactly 0; so the gamma band (30 to
    100) is 0 whenever the sampling rate is below 60. *)
Theorem band_above_nyquist_is_zero (data : list number) (sfreq : Q) (windowSize : nat)
    (overlap : Q) (s : SpectrogramData) :
  analyze data sfreq windowSize overlap = Normal s → (0 < sfreq)%Q →
  (∀ lo hi : Q, (sfreq / 2 < lo)%Q → getBandPower s (Fin lo) (Fin hi) = Fin 0)
  ∧ ((sfreq < 60)%Q → gamma (aggregate s) = Fin 0).
Proof.
  intros Hs Hpos.
  assert (Hzero : ∀ lo hi : Q, (sfreq / 2 < lo)%Q →
            getBandPower s (Fin lo) (Fin hi) = Fin 0).
  { intros lo hi Hlo. rewrite getBandPower_band_mean. apply band_mean_no_bin.
    eapply Forall_impl; [exact (frequencies_below_nyquist _ _ _ _ _ Hs Hpos)|].
    intros f [->|(x & -> & Hx)]; [done|]. unfold in_band.
    assert (Hf : Num.leb (Fin lo) (Fin x) = false) by (apply leb_Fin_false; lra).
    by rewrite Hf. }
  split; [exact Hzero|]. intros Hlt. apply (Hzero 30%Q 100%Q).
  apply Qlt_shift_div_r; lra.
Qed.

(** X8.  When a band contains a frequency bin but the spectrogram has
    no time window (every row of the power matrix is empty), [getBandPower]
    returns [NaN], the quotient [0 / 0], and not 0. *)
Theorem band_power_without_windows (s : SpectrogramData) (lo hi : number) :
  Forall (λ row, row = []) (power s) →
  existsb (in_band lo hi) (frequencies s) = true →
  getBandPower s lo hi = NaN.
Proof.
  intros Hrows Hbin. rewrite getBandPower_band_mean. unfold band_mean. rewrite Hbin.
  assert (Hc : concat (band_rows s lo hi) = []).
  { unfold band_rows. generalize (frequencies s). induction Hrows as [|row rows -> _ IH].
    - intros fs. by destruct fs.
    - intros [|f fs]; [done|]. simpl. destruct (in_band lo hi f); simpl; apply IH. }
  by rewrite Hc.
Qed.

Lemma time_at_Fin (sfreq : Q) (hop : Z) (w : nat) :
  ¬ sfreq == 0 →
  time_at sfreq hop w
  = Fin (Qred (Qred (inject_Z (Z.of_nat w) * inject_Z hop) / sfreq)).
Proof. intros Hs. unfold time_at, of_nat, of_Z. by apply div_Fin_nonzero. Qed.

(** X9.  In a spectrogram returned by [analyze] with a hop of at least
    one sample and a positive sampling rate, entry [w] of the time axis is
    [w * hopSize / sfreq], window [w] ends inside the buffer, and the time
    axis is strictly increasing. *)
Theorem time_axis (data : list number) (sfreq : Q) (windowSize : nat) (overlap : Q)
    (s : SpectrogramData) :
  let N := Z.of_nat (length data) in
  let W := Z.of_nat windowSize in
  let hop := hopSize windowSize overlap in
  analyze data sfreq windowSize overlap = Normal s → 1 ≤ hop → (0 < sfreq)%Q →
  (∀ w, (w < length (times s))%nat →
     times s !! w = Some (of_nat w * of_Z hop / Fin sfreq)%num
     ∧ Z.of_nat w * hop + W ≤ N)
  ∧ (∀ v w tv tw, (v < w)%nat →
       times s !! v = Some tv → times s !! w = Some tw → Num.ltb tv tw = true).
Proof.
  intros N W hop Hs Hhop Hpos.
  apply analyze_Normal_inv in Hs as (cols & Hcols & _ & ->).
  destruct (spectrogram_of_shape data sfreq windowSize overlap cols) as (_ & _ & Ht & _).
  rewrite Ht. simpl. split.
  - intros w Hw. rewrite lookup_map_seq. case_decide; [|lia]. split; [done|].
    rewrite numWindows_nonzero_hop in Hcols by (fold hop; lia). fold N W hop in Hcols.
    rewrite array_length_of_Z in Hcols. case_decide; [|done].
    injection Hcols as <-.
    pose proof (Z.mul_div_le (N - W) hop ltac:(lia)). nia.
  - intros v w tv tw Hvw. rewrite !lookup_map_seq. repeat case_decide; try done.
    intros [= <-] [= <-]. rewrite !time_at_Fin by lra. apply ltb_Fin.
    rewrite !Qred_correct. unfold Qdiv. apply Qmult_lt_compat_r.
    + apply Qinv_lt_0_compat. lra.
    + rewrite <- !inject_Z_mult, <- Zlt_Qlt. fold hop. nia.
Qed.
End Spectrogram.

Lemma band_above_nyquist_witness :
  ∃ s, @analyze ApproxMath (map of_Z [1; 2; 3; 4; 5; 6; 7; 8]) 8 4 (1 # 2) = Normal s
       ∧ gamma (aggregate s) = Fin 0.
Proof.
  set (data := map of_Z [1; 2; 3; 4; 5; 6; 7; 8]).
  set (s := @spectrogram_of ApproxMath data 8 4 (1 # 2) 3).
  assert (Hs : @analyze ApproxMath data 8 4 (1 # 2) = Normal s).
  { apply (@generateSpectrogram_Normal ApproxMath); [vm_compute; discriminate|reflexivity]. }
  exists s. split; [exact Hs|].
  destruct (@band_above_nyquist_is_zero ApproxMath data 8 4 (1 # 2) s Hs) as [_ Hg];
    [reflexivity|].
  apply Hg. reflexivity.
Defined.

Lemma band_power_without_windows_witness :
  getBandPower {| frequencies := [Fin 1; Fin 2; Fin 3]; times := [];
                  power := [[]; []; []] |} (Fin (1 # 2)) (Fin 4) = NaN.
Proof.
  apply band_power_without_windows; [repeat constructor|reflexivity].
Defined.

Lemma time_axis_witness :
  let data := map of_Z [1; 2; 3; 4; 5; 6; 7; 8] in
  let s := @spectrogram_of ApproxMath data 8 4 (1 # 2) 3 in
  times s !! 2%nat = Some (of_nat 2 * of_Z 2 / Fin 8)%num ∧ 2 * 2 + 4 ≤ 8.
Proof.
  intros data s.
  assert (Hs : @analyze ApproxMath data 8 4 (1 # 2) = Normal s).
  { apply (@generateSpectrogram_Normal ApproxMath); [vm_compute; discriminate|reflexivity]. }
  destruct (@time_axis ApproxMath data 8 4 (1 # 2) s Hs) as [Hw _];
    [vm_compute; discriminate|reflexivity|].
  apply (Hw 2%nat). simpl. lia.
Defined.

(** ** The hook and the test suite on the default window *)

Lemma hopSize_default : hopSize 256 (1 # 2) = 128.
Proof. reflexivity. Qed.

Lemma freqBins_default : freqBins 256 = 129.
Proof. reflexivity. Qed.

Lemma numWindows_default (len : nat) :
  numWindows len 256 (1 # 2) = of_Z ((Z.of_nat len - 256) / 128 + 1).
Proof. by rewrite numWindows_nonzero_hop. Qed.

Section Defaults.
Context {M : MathLib}.

(** The three regimes of [generateSpectrogram] on the default window. *)
Lemma generateSpectrogram_default (data : list number) (sfreq : Q) :
  let N := Z.of_nat (length data) in
  (N < 128 → generateSpectrogram data sfreq 256 (1 # 2) = Throw RangeError)
  ∧ (128 ≤ N → N ≤ max_array_length →
       generateSpectrogram data sfreq 256 (1 # 2)
       = Normal (spectrogram_of data sfreq 256 (1 # 2) (Z.to_nat ((N - 256) / 128 + 1)))).
Proof.
  intros N. split.
  - intros HN. apply generateSpectrogram_Throw. right.
    rewrite numWindows_default, array_length_of_Z. fold N.
    case_decide; [|done].
    assert ((N - 256) / 128 < -1); [|lia]. apply Z.div_lt_upper_bound; lia.
  - intros HN Hmax. apply generateSpectrogram_Normal;
      [change (freqBins 256) with 129; change max_array_length with 4294967295; lia|].
    rewrite numWindows_default, array_length_of_Z. fold N.
    case_decide; [done|].
    assert (-1 ≤ (N - 256) / 128) by (apply Z.div_le_lower_bound; lia).
    assert ((N - 256) / 128 + 1 ≤ max_array_length); [|lia].
    destruct (decide (0 ≤ N - 256)).
    + assert ((N - 256) / 128 ≤ N - 256) by (apply Z.div_le_upper_bound; lia). lia.
    + assert ((N - 256) / 128 < 0) by (apply Z.div_lt_upper_bound; lia).
      change max_array_length with 4294967295. lia.
Qed.

(** X10.  With the default window (256 samples, overlap 0.5) the hook
    [useSpectrogram] swallows the RangeError of a recording shorter than 128
    samples (no spectrogram, no bands, not ready); from 128 samples on it is
    ready and its bands are those of the spectrogram; and for 128 to 255
    samples at 250 Hz the spectrogram has no time window and all five band
    powers are [NaN]. *)
Theorem useSpectrogram_default_window (e : EEGData) :
  let N := Z.of_nat (length (data e)) in
  let r := useSpectrogram (Some e) 256 (1 # 2) in
  (N < 128 → spectrogramData r = None ∧ bands r = None ∧ isReady r = false)
  ∧ (128 ≤ N → N ≤ max_array_length →
       isReady r = true
       ∧ ∃ s, spectrogramData r = Some s ∧ bands r = Some (aggregate s)
              ∧ Z.of_nat (length (times s)) = (N - 256) / 128 + 1)
  ∧ (128 ≤ N < 256 → sfreq e = 250%Q →
       bands r = Some {| delta := NaN; theta := NaN; alpha := NaN;
                         beta := NaN; gamma := NaN |}).
Proof.
  intros N r. destruct (generateSpectrogram_default (data e) (sfreq e)) as [Hlo Hhi].
  fold N in Hlo, Hhi. split; [|split].
  - intros HN. unfold r, useSpectrogram. by rewrite (Hlo HN).
  - intros HN Hmax. unfold r, useSpectrogram. rewrite (Hhi HN Hmax). cbn iota.
    split; [done|]. eexists. split; [reflexivity|]. split; [reflexivity|].
    simpl. rewrite length_map, length_seq.
    assert (-1 ≤ (N - 256) / 128) by (apply Z.div_le_lower_bound; lia). lia.
  - intros HN Hrate. unfold r, useSpectrogram.
    rewrite Hhi by (change max_array_length with 4294967295; lia). cbn iota.
    assert (Hd : (N - 256) / 128 = -1)
      by (symmetry; apply (Z.div_unique _ _ _ (N - 256 + 128)); lia).
    rewrite Hd. change (Z.to_nat (-1 + 1)) with 0%nat. rewrite Hrate.
    (* no window: every band has bins and every row is empty, so each mean is 0/0 *)
    reflexivity.
Qed.

Lemma frequency_at_nonneg (sfreq : Q) (windowSize k : nat) :
  (0 < sfreq)%Q → windowSize ≠ 0%nat →
  ∃ x, frequency_at sfreq windowSize k = Fin x ∧ (0 <= x)%Q.
Proof.
  intros Hpos Hw. rewrite frequency_at_Fin by done. eexists. split; [reflexivity|].
  assert (H0 : (0 <= Qred (Qred (inject_Z (Z.of_nat k) * sfreq)
                            / inject_Z (Z.of_nat windowSize)))%Q).
  { rewrite !Qred_correct. apply Qle_shift_div_l.
    - change 0%Q with (inject_Z 0). rewrite <- Zlt_Qlt. lia.
    - rewrite Qmult_0_l. apply Qmult_le_0_compat; [|lra].
      change 0%Q with (inject_Z 0). rewrite <- Zle_Qle. lia. }
  done.
Qed.

Lemma testSpectrogram_throws (e : EEGData) :
  Z.of_nat (length (data e)) < 128 → testSpectrogram e = Throw RangeError.
Proof.
  intros HN. destruct (generateSpectrogram_default (data e) (sfreq e)) as [Hlo _].
  unfold testSpectrogram. by rewrite (Hlo HN).
Qed.

Lemma testSpectrogram_no_window (e : EEGData) :
  128 ≤ Z.of_nat (length (data e)) < 256 →
  ∃ r, testSpectrogram e = Normal r
       ∧ dimensions_times r = 0%nat ∧ spectrogram_passed r = false.
Proof.
  intros HN. destruct (generateSpectrogram_default (data e) (sfreq e)) as [_ Hhi].
  unfold testSpectrogram.
  rewrite Hhi by (change max_array_length with 4294967295; lia).
  rewrite bind_Normal. eexists. split; [reflexivity|].
  assert (Hd : (Z.of_nat (length (data e)) - 256) / 128 = -1)
    by (symmetry; apply (Z.div_unique _ _ _ (Z.of_nat (length (data e)) - 256 + 128)); lia).
  rewrite Hd. split; reflexivity.
Qed.

(** X11.  [testSpectrogram] throws the RangeError for a recording
    shorter than 128 samples, fails (no time window) for 128 to 255 samples,
    and passes for every recording of at least 256 samples with a positive
    sampling rate, reporting 129 frequencies and
    [floor((N - 256) / 128) + 1] times. *)
Theorem testSpectrogram_outcome (e : EEGData) :
  let N := Z.of_nat (length (data e)) in
  (N < 128 → testSpectrogram e = Throw RangeError)
  ∧ (128 ≤ N < 256 →
       ∃ r, testSpectrogram e = Normal r
            ∧ dimensions_times r = 0%nat ∧ spectrogram_passed r = false)
  ∧ (256 ≤ N → N ≤ max_array_length → (0 < sfreq e)%Q →
       ∃ r, testSpectrogram e = Normal r
            ∧ dimensions_frequencies r = 129%nat
            ∧ Z.of_nat (dimensions_times r) = (N - 256) / 128 + 1
            ∧ dimensions_power r = (129 * dimensions_times r)%nat
            ∧ spectrogram_passed r = true).
Proof.
  intros N. destruct (generateSpectrogram_default (data e) (sfreq e)) as [Hlo Hhi].
  fold N in Hlo, Hhi. split; [|split].
  - apply testSpectrogram_throws.
  - apply testSpectrogram_no_window.
  - intros HN Hmax Hpos. unfold testSpectrogram. rewrite (Hhi ltac:(lia) Hmax).
    rewrite bind_Normal. eexists. split; [reflexivity|].
    assert (Hd0 : 0 ≤ (N - 256) / 128) by (apply Z.div_pos; lia).
    set (cols := Z.to_nat ((N - 256) / 128 + 1)).
    assert (Hcols : (0 < cols)%nat) by (unfold cols; lia).
    set (s := spectrogram_of (data e) (sfreq e) 256 (1 # 2) cols).
    assert (Ef : frequencies s = map (frequency_at (sfreq e) 256) (seq 0 129)) by reflexivity.
    assert (Et : length (times s) = cols) by apply spectrogram_of_shape.
    assert (Ep : length (power s) = 129%nat) by apply spectrogram_of_shape.
    assert (Er : length (default [] (power s !! 0%nat)) = cols).
    { unfold s, spectrogram_of. cbn [power]. rewrite lookup_map_seq.
      change (Z.to_nat (freqBins 256)) with 129%nat. case_decide; [|lia]. 
      change (length (map (λ w, cell (data e) 256 (hopSize 256 (1 # 2)) 0 w) (seq 0 cols)) = cols).
      by rewrite length_map, length_seq. }
    cbn [dimensions_frequencies dimensions_times dimensions_power spectrogram_passed].
    rewrite Et, Ep, Er, Ef, length_map, length_seq.
    split; [reflexivity|]. split; [unfold cols; lia|]. split; [reflexivity|].
    (* the frequency axis is a list of finite values *)
    set (g := λ k : nat, Qred (Qred (inject_Z (Z.of_nat k) * sfreq e) / inject_Z (Z.of_nat 256))).
    assert (Hfs : map (frequency_at (sfreq e) 256) (seq 0 129) = map Fin (map g (seq 0 129))).
    { rewrite map_map. apply map_ext. intros k. by apply frequency_at_Fin. }
    rewrite Hfs.
    destruct (Math_min_max_Fin (map g (seq 0 129)) ltac:(done))
      as (lo & hi & -> & -> & Hlo' & Hhi' & _).
    apply list_elem_of_fmap in Hlo' as (kl & -> & _).
    apply list_elem_of_fmap in Hhi' as (kh & -> & Hkh). apply elem_of_seq in Hkh.
    assert (H1 : (0 <? 129)%nat = true) by reflexivity.
    assert (H2 : (0 <? cols)%nat = true) by (apply Nat.ltb_lt; lia).
    assert (H3 : Num.geb (Fin (g kl)) (Fin 0) = true).
    { destruct (frequency_at_nonneg (sfreq e) 256 kl Hpos ltac:(done)) as (x & Hx & Hx0).
      rewrite frequency_at_Fin in Hx by done. injection Hx as <-.
      unfold Num.geb. by apply leb_Fin. }
    assert (H4 : Num.leb (Fin (g kh)) (Fin (sfreq e) / Fin 2)%num = true).
    { pose proof (frequency_at_nyquist (sfreq e) 256 kh Hpos ltac:(done)
                    ltac:(change (freqBins 256) with 129; lia)) as Hny.
      by rewrite frequency_at_Fin in Hny by done. }
    by rewrite H1, H2, H3, H4.
Qed.
End Defaults.

Lemma useSpectrogram_default_window_witness :
  let e := {| data := replicate 200 (Fin 1); sfreq := 250; channel_name := "Fz";
              duration := None |} in
  isReady (@useSpectrogram ApproxMath (Some e) 256 (1 # 2)) = true
  ∧ bands (@useSpectrogram ApproxMath (Some e) 256 (1 # 2))
    = Some {| delta := NaN; theta := NaN; alpha := NaN; beta := NaN; gamma := NaN |}.
Proof.
  intros e.
  destruct (@useSpectrogram_default_window ApproxMath e) as (_ & Hready & Hbands).
  split.
  - apply Hready; vm_compute; discriminate.
  - apply Hbands; [split; [vm_compute; discriminate|reflexivity]|reflexivity].
Defined.

Lemma testSpectrogram_outcome_witness :
  let e := {| data := replicate 300 (Fin 1); sfreq := 250; channel_name := "Fz";
              duration := None |} in
  ∃ r, @testSpectrogram ApproxMath e = Normal r
       ∧ dimensions_frequencies r = 129%nat
       ∧ Z.of_nat (dimensions_times r) = 1
       ∧ spectrogram_passed r = true.
Proof.
  intros e. destruct (@testSpectrogram_outcome ApproxMath e) as (_ & _ & Hpass).
  destruct Hpass as (r & Hr & Hf & Ht & _ & Hp);
    [vm_compute; discriminate|vm_compute; discriminate|reflexivity|].
  exists r. repeat split; try done.
Defined.

(** ** The preprocessing test and the synthetic recording *)

Lemma foldl_add_NaN (l : list number) : foldl Num.add NaN l = NaN.
Proof. induction l as [|x l IH]; [done|]. simpl. by destruct x. Qed.

Lemma reduce_sum_NaNs (n : nat) :
  reduce_sum (replicate n NaN) = if n is O then Fin 0 else NaN.
Proof.
  destruct n as [|n]; [done|]. unfold reduce_sum. simpl. apply foldl_add_NaN.
Qed.

Section Suite.
Context {M : MathLib}.

Lemma testPreprocessing_constant (e : EEGData) (n : nat) (c : Q) :
  data e = replicate n (Fin c) →
  summary_mean (processed (testPreprocessing e)) = NaN
  ∧ preprocessing_passed (testPreprocessing e) = false.
Proof.
  intros Hdata.
  assert (Hmean : summary_mean (processed (testPreprocessing e)) = NaN).
  { unfold testPreprocessing. cbn [processed summary_mean].
    rewrite Hdata, preprocess_constant, reduce_sum_NaNs, length_replicate.
    by destruct n. }
  split; [done|].
  unfold testPreprocessing in *. cbn [processed summary_mean preprocessing_passed] in *.
  by rewrite Hmean.
Qed.

(** X12.  [testPreprocessing] never passes a constant recording; for a
    constant recording of an integer value [c] with [n * |c| <= 2^53] (a
    sum that the code's doubles compute without rounding) the processed
    mean it reports is [NaN]; and whenever the largest absolute value before
    the normalisation is finite and not zero, the processed range is a
    finite number between 0 and 2, so the range criterion holds. *)
Theorem testPreprocessing_criteria (e : EEGData) :
  (∀ n c, data e = replicate n (Fin c) →
     preprocessing_passed (testPreprocessing e) = false)
  ∧ (∀ n (c : Z), data e = replicate n (of_Z c) →
       Z.of_nat n * Z.abs c ≤ 2 ^ 53 →
       summary_mean (processed (testPreprocessing e)) = NaN)
  ∧ (∀ m, data e ≠ [] →
       Math_max (map Math_abs
                   (bandpassFilter (removeDCOffset (data e)) (sfreq e) (Fin 1) (Fin 50)))
       = Fin m →
       ¬ (m == 0)%Q →
       ∃ r, summary_range (processed (testPreprocessing e)) = Fin r ∧ (0 <= r <= 2)%Q).
Proof.
  split; [|split].
  - intros n c Hdata. by destruct (testPreprocessing_constant e n c Hdata).
  - intros n c Hdata _. by destruct (testPreprocessing_constant e n (inject_Z c) Hdata).
  - intros m Hne Hm Hm0.
    pose proof (normalize_bounded _ m Hm Hm0) as Hb.
    apply Forall_Fin_map in Hb as (os & Hos & Hbs).
    assert (Hout : preprocess (data e) (sfreq e) default_config = map Fin os) by exact Hos.
    assert (Hone : os ≠ []).
    { intros ->. apply Hne. apply length_zero_iff_nil.
      by rewrite <- (preprocess_length (data e) (sfreq e) default_config), Hout. }
    destruct (Math_min_max_Fin os Hone) as (lo & hi & Hlo & Hhi & Hlin & Hhin & Hord).
    unfold testPreprocessing. cbn [processed summary_range].
    rewrite Hout, Hlo, Hhi. eexists. split; [reflexivity|].
    rewrite Qred_correct. rewrite Forall_forall in Hbs.
    pose proof (Hbs lo Hlin). pose proof (Hbs hi Hhin).
    pose proof (Hord lo Hlin). lra.
Qed.
End Suite.

Section Synthetic.
Context {M : MathLib}.

Lemma generateSampleEEG_length (random : nat → number) (duration rate : Q) (name : string) :
  length (data (generateSampleEEG random duration rate name))
  = Z.to_nat (Qceiling (duration * rate)).
Proof.
  unfold generateSampleEEG. cbn [data].
  rewrite (for_loop_snoc (λ i,
    (Fin (1 # 2) * Math_sin (Fin 2 * Math_PI * Fin 10 * (of_nat i / Fin rate))
     + Fin (3 # 10) * Math_sin (Fin 2 * Math_PI * Fin 20 * (of_nat i / Fin rate))
     + Fin (2 # 5) * Math_sin (Fin 2 * Math_PI * Fin 6 * (of_nat i / Fin rate))
     + Fin (1 # 10) * (random i - Fin (1 # 2)))%num)).
  by rewrite length_map, length_seq.
Qed.

(** X13.  [generateSampleEEG] returns [ceil(duration * sfreq)] samples
    whatever [Math.sin] and [Math.random] return; preprocessing keeps the
    length and the sampling rate; and for the 10 s at 250 Hz that
    [generateSyntheticData] asks for, the 2500 preprocessed samples give a
    spectrogram of 129 frequencies by 18 time windows. *)
Theorem synthetic_recording (random : nat → number) (duration rate : Q) (name : string) :
  let raw := generateSampleEEG random duration rate name in
  let shown := processedData raw in
  length (data raw) = Z.to_nat (Qceiling (duration * rate))
  ∧ length (data shown) = length (data raw)
  ∧ sfreq shown = rate
  ∧ ((duration == 10)%Q → (rate == 250)%Q →
       length (data shown) = 2500%nat
       ∧ ∃ s, analyze (data shown) 250 256 (1 # 2) = Normal s
              ∧ length (frequencies s) = 129%nat
              ∧ length (times s) = 18%nat
              ∧ ∀ row, row ∈ power s → length row = 18%nat).
Proof.
  intros raw shown.
  assert (Hraw : length (data raw) = Z.to_nat (Qceiling (duration * rate)))
    by apply generateSampleEEG_length.
  assert (Hshown : length (data shown) = length (data raw))
    by apply preprocess_length.
  split; [done|]. split; [done|]. split; [done|].
  intros Hd Hr.
  assert (Hlen : length (data shown) = 2500%nat).
  { rewrite Hshown, Hraw. rewrite (Qceiling_comp _ (10 * 250)) by (by rewrite Hd, Hr).
    reflexivity. }
  split; [done|].
  destruct (spectrogram_shape_general (data shown) 250 256 (1 # 2))
    as (s & Hs & Hp & Hf & Ht & Hrows & _).
  - rewrite Hlen. vm_compute. discriminate.
  - vm_compute. discriminate.
  - reflexivity.
  - rewrite Hlen. vm_compute. discriminate.
  - rewrite Hlen in Ht.
    change (Z.of_nat 256 / 2 + 1) with 129 in Hf.
    change ((Z.of_nat 2500 - Z.of_nat 256) / hopSize 256 (1 # 2) + 1) with 18 in Ht.
    exists s. split; [done|]. split; [lia|]. split; [lia|].
    intros row Hrow. rewrite (Hrows row Hrow). lia.
Qed.
End Synthetic.

Lemma testPreprocessing_criteria_witness :
  let e := {| data := [Fin 1; Fin 1; Fin 1]; sfreq := 250; channel_name := "Fz";
              duration := None |} in
  preprocessing_passed (@testPreprocessing ApproxMath e) = false
  ∧ summary_mean (processed (@testPreprocessing ApproxMath e)) = NaN.
Proof.
  intros e. destruct (@testPreprocessing_criteria ApproxMath e) as (Hconst & Hmean & _).
  split.
  - apply (Hconst 3%nat 1%Q). reflexivity.
  - apply (Hmean 3%nat 1); [reflexivity|vm_compute; discriminate].
Defined.

Lemma synthetic_recording_witness :
  let shown := processedData (@generateSampleEEG ApproxMath (λ _, Fin (1 # 2)) 10 250 "Fz") in
  length (data shown) = 2500%nat.
Proof.
  intros shown.
  destruct (@synthetic_recording ApproxMath (λ _, Fin (1 # 2)) 10 250 "Fz")
    as (_ & _ & _ & H).
  apply H; reflexivity.
Defined.

(** ** The prediction *)

Lemma add_NaN_r (x : number) : (x + NaN)%num = NaN.
Proof. by destruct x. Qed.

(** One [NaN] sample turns the sum of [reduce] into [NaN]. *)
Lemma reduce_sum_NaN (l : list number) : NaN ∈ l → reduce_sum l = NaN.
Proof.
  intros Hin. apply list_elem_of_split in Hin as (l1 & l2 & ->).
  unfold reduce_sum. rewrite foldl_app. simpl. rewrite add_NaN_r. apply foldl_add_NaN.
Qed.

Lemma div_NaN_l (y : number) : (NaN / y)%num = NaN.
Proof. done. Qed.

Lemma mock_label_NaN_mean (features : list number) (random : number) :
  array_get features 0 = NaN →
  prediction (generateMockPrediction features random) = HealthyControl.
Proof.
  intros Hm. unfold generateMockPrediction. cbn [prediction]. rewrite Hm.
  change (Math_abs NaN) with NaN. by rewrite andb_false_r.
Qed.

Lemma mock_confidence (features : list number) (r : Q) :
  (0 <= r < 1)%Q →
  ∃ q, confidence (generateMockPrediction features (Fin r)) = Fin q
       ∧ (q == (7 # 10) + r * (1 # 4))%Q ∧ ((7 # 10) <= q < (19 # 20))%Q.
Proof.
  intros Hr. unfold generateMockPrediction. cbn [confidence].
  set (b := Qred ((7 # 10) + Qred (r * (1 # 4)))).
  change (Fin (7 # 10) + Fin r * Fin (1 # 4))%num with (Fin b).
  assert (Hb' : (b == (7 # 10) + r * (1 # 4))%Q).
  { unfold b. by rewrite !Qred_correct. }
  assert (Hlt : Num.ltb (Fin b) (Fin (19 # 20)) = true).
  { apply ltb_Fin. rewrite Hb'. lra. }
  exists b. split.
  - change (Math_min [Fin (19 # 20); Fin b])
      with (if Num.ltb (Fin b) (Fin (19 # 20)) then Fin b else Fin (19 # 20)).
    by rewrite Hlt.
  - split; [done|]. rewrite Hb'. lra.
Qed.

Section Prediction.
Context {M : MathLib}.

Lemma predict_mock (session : option (list number → option (list number)))
    (isLoaded : bool) (random : number) (eegData : EEGData) :
  uses_mock session isLoaded eegData →
  predict session isLoaded random eegData
  = generateMockPrediction (prepareInput (data eegData)) random.
Proof.
  unfold predict. intros [->|[->|(run & -> & ->)]].
  - done.
  - by destruct session.
  - by destruct isLoaded.
Qed.

(** X14.  Whenever [predict] falls back to the mock prediction (no
    session, model not loaded, or the inference throws) and [Math.random()]
    is in [[0, 1)], the confidence is [0.7 + 0.25 * random], which lies in
    [[0.7, 0.95)]: the cap [Math.min(0.95, _)] never takes effect. *)
Theorem mock_confidence_range (session : option (list number → option (list number)))
    (isLoaded : bool) (r : Q) (eegData : EEGData) :
  uses_mock session isLoaded eegData →
  (0 <= r < 1)%Q →
  let p := predict session isLoaded (Fin r) eegData in
  modelVersion p = "Mock CNN v1.0 (Demo)"%string
  ∧ ∃ q, confidence p = Fin q ∧ (q == (7 # 10) + r * (1 # 4))%Q ∧ ((7 # 10) <= q < (19 # 20))%Q.
Proof.
  intros Hmock Hr p. unfold p. rewrite (predict_mock _ _ _ _ Hmock).
  split; [done|]. by apply mock_confidence.
Qed.

Lemma prepareInput_mean_NaN (data : list number) :
  NaN ∈ data ∨ data = [] → array_get (prepareInput data) 0 = NaN.
Proof.
  intros Hd. destruct (prepareInput_entries data) as (_ & H0 & _).
  change 0 with (Z.of_nat 0). rewrite (array_get_lookup _ 0 _ H0).
  destruct Hd as [Hin| ->]; [|done]. by rewrite reduce_sum_NaN.
Qed.

(** X15.  On the mock path [predict] answers Healthy Control for
    every recording that is empty or holds a [NaN] sample, and so for every
    preprocessed constant recording. *)
Theorem mock_label_of_degenerate_recording
    (session : option (list number → option (list number)))
    (isLoaded : bool) (random : number) (eegData : EEGData) :
  uses_mock session isLoaded eegData →
  NaN ∈ data eegData ∨ data eegData = []
  ∨ (∃ raw n c, data raw = replicate n (Fin c) ∧ eegData = processedData raw) →
  prediction (predict session isLoaded random eegData) = HealthyControl.
Proof.
  intros Hmock Hdata. rewrite (predict_mock _ _ _ _ Hmock).
  apply mock_label_NaN_mean, prepareInput_mean_NaN.
  destruct Hdata as [?|[?|(raw & n & c & Hraw & ->)]]; [by left|by right|].
  unfold processedData. cbn [data]. rewrite Hraw, preprocess_constant.
  destruct n as [|n]; [by right|left]. simpl. by left.
Qed.

(** X16.  For finite features, the mock prediction is Schizophrenia
    exactly when [|mean| < 0.1] and [|mean| + 0.001 < 2 * std]; it does not
    depend on [Math.random()]. *)
Theorem mock_label (features : list number) (random : number) (μ σ : Q) :
  array_get features 0 = Fin μ →
  array_get features 1 = Fin σ →
  (prediction (generateMockPrediction features random) = Schizophrenia
   ↔ (Qabs μ < (1 # 10) ∧ Qabs μ + (1 # 1000) < 2 * σ)%Q).
Proof.
  intros Hm Hs. unfold generateMockPrediction. cbn [prediction]. rewrite Hm, Hs.
  change (Math_abs (Fin μ)) with (Fin (Qabs μ)).
  change (Fin (Qabs μ) + Fin (1 # 1000))%num with (Fin (Qred (Qabs μ + (1 # 1000)))).
  pose proof (Qabs_nonneg μ) as Habs.
  assert (Hd : (0 < Qred (Qabs μ + (1 # 1000)))%Q) by (rewrite Qred_correct; lra).
  rewrite div_Fin_nonzero by lra.
  set (d := Qred (Qabs μ + (1 # 1000))) in *.
  assert (Hdq : (d == Qabs μ + (1 # 1000))%Q) by (unfold d; rewrite Qred_correct; lra).
  assert (Hc : Num.ltb (Fin (1 # 2)) (Fin (Qred (σ / d))) = true ↔ (d < 2 * σ)%Q).
  { rewrite ltb_Fin, Qred_correct. split; intros H.
    - apply (Qmult_lt_compat_r _ _ d) in H; [|done].
      assert (E : (σ / d * d == σ)%Q) by (field; lra). rewrite E in H. lra.
    - apply Qlt_shift_div_l; [done|]. lra. }
  assert (Hl : Num.ltb (Fin (Qabs μ)) (Fin (1 # 10)) = true ↔ (Qabs μ < (1 # 10))%Q)
    by apply ltb_Fin.
  destruct (Num.ltb (Fin (1 # 2)) (Fin (Qred (σ / d)))) eqn:E1,
           (Num.ltb (Fin (Qabs μ)) (Fin (1 # 10))) eqn:E2; cbn [andb].
  - split; [intros _|done]. split; [by apply Hl|]. rewrite <- Hdq. by apply Hc.
  - split; [done|]. intros [H _]. apply Hl in H. done.
  - split; [done|]. intros [_ H]. rewrite <- Hdq in H. apply Hc in H. done.
  - split; [done|]. intros [H _]. apply Hl in H. done.
Qed.

Lemma Math_max_pair (a b : Q) :
  ∃ q, Math_max [Fin a; Fin b] = Fin q
       ∧ (a <= q)%Q ∧ (b <= q)%Q ∧ (q = a ∨ q = b).
Proof.
  destruct (Math_min_max_Fin [a; b] ltac:(done)) as (lo & hi & _ & Hhi & _ & Hin & Hb).
  exists hi. split; [exact Hhi|].
  split; [apply Hb; by left|]. split; [apply Hb; right; by left|].
  rewrite !elem_of_cons in Hin. destruct Hin as [?|[?|Hin]]; auto. by inversion Hin.
Qed.

(** X17.  With a loaded model whose first output is the finite value
    [s]: when the second output is missing, zero or [NaN], the healthy
    probability is taken to be [1 - s], the label is Schizophrenia exactly
    when [s > 1/2], and the confidence is the larger of [s] and [1 - s], at
    least 1/2; when the second output is a non-zero finite [h], the label is
    Schizophrenia exactly when [s > h] and the confidence is the larger of
    the two. *)
Theorem model_prediction (run : list number → option (list number)) (random : number)
    (eegData : EEGData) (out : list number) (s : Q) :
  run (prepareInput (data eegData)) = Some out →
  array_get out 0 = Fin s →
  let p := predict (Some run) true random eegData in
  modelVersion p = "CNN v1.0"%string
  ∧ (Num.truthy (array_get out 1) = false →
       (prediction p = Schizophrenia ↔ ((1 # 2) < s)%Q)
       ∧ ∃ q, confidence p = Fin q ∧ (q == s ∨ q == 1 - s)%Q
              ∧ (s <= q)%Q ∧ (1 - s <= q)%Q ∧ ((1 # 2) <= q)%Q)
  ∧ (∀ h, array_get out 1 = Fin h → ¬ (h == 0)%Q →
       (prediction p = Schizophrenia ↔ (h < s)%Q)
       ∧ ∃ q, confidence p = Fin q ∧ (q = s ∨ q = h) ∧ (s <= q)%Q ∧ (h <= q)%Q).
Proof.
  intros Hrun Hs p. unfold p, predict. rewrite Hrun, Hs.
  split; [done|]. split.
  - intros Ht. rewrite Ht. cbn [prediction confidence].
    change (Fin 1 - Fin s)%num with (Fin (Qred (1 - s))).
    split.
    + destruct (Num.ltb (Fin (Qred (1 - s))) (Fin s)) eqn:E.
      * apply ltb_Fin in E. rewrite Qred_correct in E. split; [intros _; lra|done].
      * apply ltb_Fin_false in E. rewrite Qred_correct in E.
        split; [done|]. intros H. lra.
    + destruct (Math_max_pair s (Qred (1 - s))) as (q & Hq & H1 & H2 & Hor).
      rewrite Qred_correct in H2.
      exists q. split; [done|]. split.
      * destruct Hor as [->| ->]; [by left|right]. apply Qred_correct.
      * repeat split; try done. lra.
  - intros h Hh Hh0. rewrite Hh.
    assert (Ht : Num.truthy (Fin h) = true).
    { simpl. destruct (Qeq_bool h 0) eqn:E; [|done]. by apply Qeq_bool_iff in E. }
    rewrite Ht. cbn [prediction confidence]. split.
    + destruct (Num.ltb (Fin h) (Fin s)) eqn:E.
      * apply ltb_Fin in E. done.
      * apply ltb_Fin_false in E. split; [done|]. intros H. lra.
    + destruct (Math_max_pair s h) as (q & Hq & H1 & H2 & Hor). by exists q.
Qed.
End Prediction.

Lemma mock_confidence_range_witness :
  let e := {| data := [Fin 1; Fin 2]; sfreq := 250; channel_name := "Fz";
              duration := None |} in
  ∃ q, confidence (@predict ApproxMath None false (Fin (1 # 2)) e) = Fin q
       ∧ (q == (7 # 10) + (1 # 2) * (1 # 4))%Q ∧ ((7 # 10) <= q < (19 # 20))%Q.
Proof.
  intros e.
  apply (@mock_confidence_range ApproxMath None false (1 # 2) e).
  - left. reflexivity.
  - split; [vm_compute; discriminate|reflexivity].
Defined.

Lemma mock_label_of_degenerate_recording_witness :
  let raw := {| data := replicate 4 (Fin 3); sfreq := 250; channel_name := "Fz";
                duration := None |} in
  prediction (@predict ApproxMath None false (Fin (1 # 2)) (processedData raw))
  = HealthyControl.
Proof.
  intros raw. apply (@mock_label_of_degenerate_recording ApproxMath).
  - left. reflexivity.
  - right. right. exists raw, 4%nat, 3%Q. split; reflexivity.
Defined.

Lemma mock_label_witness :
  prediction (generateMockPrediction [Fin (1 # 20); Fin 1] (Fin (1 # 2))) = Schizophrenia.
Proof.
  apply (mock_label [Fin (1 # 20); Fin 1] (Fin (1 # 2)) (1 # 20) 1);
    [reflexivity|reflexivity|].
  split; reflexivity.
Defined.

Lemma model_prediction_witness :
  let e := {| data := [Fin 1; Fin 2]; sfreq := 250; channel_name := "Fz";
              duration := None |} in
  let run := λ _ : list number, Some [Fin (3 # 10); Fin 0] in
  prediction (@predict ApproxMath (Some run) true (Fin (1 # 2)) e) = Schizophrenia
  ↔ ((1 # 2) < (3 # 10))%Q.
Proof.
  intros e run.
  destruct (@model_prediction ApproxMath run (Fin (1 # 2)) e [Fin (3 # 10); Fin 0] (3 # 10))
    as (_ & Hzero & _); [reflexivity|reflexivity|].
  apply Hzero. reflexivity.
Defined.

(** ** Colour scales *)

Lemma normalized_Fin (v lo hi : Q) :
  (lo < hi)%Q →
  ∃ n, ((Fin v - Fin lo) / (Fin hi - Fin lo))%num = Fin n
       ∧ (n == (v - lo) / (hi - lo))%Q.
Proof.
  intros Hlt. change (Fin v - Fin lo)%num with (Fin (Qred (v - lo))).
  change (Fin hi - Fin lo)%num with (Fin (Qred (hi - lo))).
  rewrite div_Fin_nonzero by (rewrite Qred_correct; lra).
  eexists. split; [reflexivity|]. by rewrite !Qred_correct.
Qed.

Lemma normalized_range (v lo hi n : Q) :
  (lo < hi)%Q → (lo <= v <= hi)%Q → (n == (v - lo) / (hi - lo))%Q → (0 <= n <= 1)%Q.
Proof.
  intros Hlt Hv ->. split.
  - apply Qle_shift_div_l; lra.
  - apply Qle_shift_div_r; lra.
Qed.

Lemma segment_Fin (n c : Q) :
  ∃ t, ((Fin n - Fin c) / Fin (1 # 4))%num = Fin t ∧ (t == (n - c) * 4)%Q.
Proof.
  change (Fin n - Fin c)%num with (Fin (Qred (n - c))).
  rewrite div_Fin_nonzero by done.
  eexists. split; [reflexivity|]. rewrite !Qred_correct. field.
Qed.

Lemma first_segment_Fin (n : Q) :
  ∃ t, (Fin n / Fin (1 # 4))%num = Fin t ∧ (t == n * 4)%Q.
Proof.
  rewrite div_Fin_nonzero by done.
  eexists. split; [reflexivity|]. rewrite !Qred_correct. field.
Qed.

Lemma lerp_Fin (a b t : Q) :
  Math_floor (Fin a * (Fin 1 - Fin t) + Fin b * Fin t)
  = of_Z (Qfloor (a * (1 - t) + b * t)).
Proof.
  unfold Math_floor. cbn [Num.mul Num.add Num.sub]. f_equal.
  apply Qfloor_comp. by rewrite !Qred_correct.
Qed.

Lemma channel_bounds (a b t : Q) :
  (0 <= a <= 255)%Q → (0 <= b <= 255)%Q → (0 <= t <= 1)%Q →
  0 ≤ Qfloor (a * (1 - t) + b * t) ≤ 255.
Proof.
  intros Ha Hb Ht.
  assert (Hx : (0 <= a * (1 - t) + b * t <= 255)%Q) by nra.
  split.
  - change 0 with (Qfloor 0). apply Qfloor_resp_le, Hx.
  - change 255 with (Qfloor 255). apply Qfloor_resp_le, Hx.
Qed.

Lemma channel_start (a b t : Q) (c : Z) :
  (t == 0)%Q → a = inject_Z c → Qfloor (a * (1 - t) + b * t) = c.
Proof.
  intros Ht ->. rewrite <- (Qfloor_Z c) at 2. apply Qfloor_comp. rewrite Ht. ring.
Qed.

Lemma channel_end (a b t : Q) (c : Z) :
  (t == 1)%Q → b = inject_Z c → Qfloor (a * (1 - t) + b * t) = c.
Proof.
  intros Ht ->. rewrite <- (Qfloor_Z c) at 2. apply Qfloor_comp. rewrite Ht. ring.
Qed.

Lemma div_Fin_zero (a b : Q) :
  (b == 0)%Q → (Fin a / Fin b)%num = inf_of (a ?= 0)%Q.
Proof.
  intros Hb. unfold Num.div. by rewrite (proj2 (Qeq_bool_iff b 0) Hb).
Qed.

Lemma sub_of_Z (a b : Z) : (of_Z a - of_Z b)%num = of_Z (a - b).
Proof.
  unfold of_Z. cbn [Num.sub]. f_equal. rewrite <- (inject_Z_Qred (a - b)).
  apply Qred_complete. unfold Z.sub, Qminus. by rewrite inject_Z_plus, inject_Z_opp.
Qed.

(** Pick the branch of a comparison of two finite numbers. *)
Ltac take_branch :=
  match goal with
  | |- context [Num.ltb (Fin ?n) (Fin ?c)] =>
      first [rewrite (proj2 (ltb_Fin n c)) by lra
            |rewrite (proj2 (ltb_Fin_false n c)) by lra]
  end.

Lemma getColor_channels (v lo hi : Q) :
  (lo < hi)%Q → (lo <= v <= hi)%Q →
  ∃ r g b : Z,
    getColor (Fin v) (Fin lo) (Fin hi) = Rgb (of_Z r) (of_Z g) (of_Z b)
    ∧ 0 ≤ r ≤ 255 ∧ 0 ≤ g ≤ 255 ∧ 0 ≤ b ≤ 255.
Proof.
  intros Hlt Hv. destruct (normalized_Fin v lo hi Hlt) as (n & Hn & Hnq).
  pose proof (normalized_range v lo hi n Hlt Hv Hnq) as Hr.
  unfold getColor. rewrite Hn. fold (getColor (Fin v) (Fin lo) (Fin hi)).
  destruct (Num.ltb (Fin n) (Fin (1 # 4))) eqn:E1; [apply ltb_Fin in E1|].
  { destruct (first_segment_Fin n) as (t & -> & Ht). rewrite !lerp_Fin.
    eexists _, _, _. split; [reflexivity|].
    repeat split; apply channel_bounds; rewrite ?Ht; lra. }
  apply ltb_Fin_false in E1.
  destruct (Num.ltb (Fin n) (Fin (1 # 2))) eqn:E2; [apply ltb_Fin in E2|].
  { destruct (segment_Fin n (1 # 4)) as (t & -> & Ht). rewrite !lerp_Fin.
    eexists _, _, _. split; [reflexivity|].
    repeat split; apply channel_bounds; rewrite ?Ht; lra. }
  apply ltb_Fin_false in E2.
  destruct (Num.ltb (Fin n) (Fin (3 # 4))) eqn:E3; [apply ltb_Fin in E3|].
  { destruct (segment_Fin n (1 # 2)) as (t & -> & Ht). rewrite !lerp_Fin.
    eexists _, _, _. split; [reflexivity|].
    repeat split; apply channel_bounds; rewrite ?Ht; lra. }
  apply ltb_Fin_false in E3.
  destruct (segment_Fin n (3 # 4)) as (t & -> & Ht). rewrite !lerp_Fin.
  eexists _, _, _. split; [reflexivity|].
  repeat split; apply channel_bounds; rewrite ?Ht; lra.
Qed.

(** The normalised value at a quarter point of the scale. *)
Lemma normalized_quarter (v lo hi j : Q) :
  (lo < hi)%Q → ((v - lo) * 4 == j * (hi - lo))%Q →
  ∃ n, ((Fin v - Fin lo) / (Fin hi - Fin lo))%num = Fin n ∧ (n == j * (1 # 4))%Q.
Proof.
  intros Hlt Hj. destruct (normalized_Fin v lo hi Hlt) as (n & Hn & Hnq).
  exists n. split; [done|].
  assert (E : (v - lo == j * (hi - lo) * (1 # 4))%Q) by lra.
  rewrite Hnq, E. field. lra.
Qed.

Lemma getColor_quarters (v lo hi : Q) :
  (lo < hi)%Q →
  (((v - lo) * 4 == 0 * (hi - lo))%Q →
     getColor (Fin v) (Fin lo) (Fin hi) = Rgb (Fin 68) (Fin 1) (Fin 84))
  ∧ (((v - lo) * 4 == 1 * (hi - lo))%Q →
     getColor (Fin v) (Fin lo) (Fin hi) = Rgb (Fin 59) (Fin 82) (Fin 139))
  ∧ (((v - lo) * 4 == 2 * (hi - lo))%Q →
     getColor (Fin v) (Fin lo) (Fin hi) = Rgb (Fin 33) (Fin 144) (Fin 140))
  ∧ (((v - lo) * 4 == 3 * (hi - lo))%Q →
     getColor (Fin v) (Fin lo) (Fin hi) = Rgb (Fin 94) (Fin 201) (Fin 98))
  ∧ (((v - lo) * 4 == 4 * (hi - lo))%Q →
     getColor (Fin v) (Fin lo) (Fin hi) = Rgb (Fin 253) (Fin 231) (Fin 37)).
Proof.
  intros Hlt. repeat split; intros Hj; unfold getColor;
    destruct (normalized_quarter v lo hi _ Hlt Hj) as (n & -> & Hq); repeat take_branch.
  - destruct (first_segment_Fin n) as (t & -> & Ht). rewrite !lerp_Fin.
    f_equal; apply (f_equal of_Z), channel_start; (done || (rewrite Ht, Hq; ring)).
  - destruct (segment_Fin n (1 # 4)) as (t & -> & Ht). rewrite !lerp_Fin.
    f_equal; apply (f_equal of_Z), channel_start; (done || (rewrite Ht, Hq; ring)).
  - destruct (segment_Fin n (1 # 2)) as (t & -> & Ht). rewrite !lerp_Fin.
    f_equal; apply (f_equal of_Z), channel_start; (done || (rewrite Ht, Hq; ring)).
  - destruct (segment_Fin n (3 # 4)) as (t & -> & Ht). rewrite !lerp_Fin.
    f_equal; apply (f_equal of_Z), channel_start; (done || (rewrite Ht, Hq; ring)).
  - destruct (segment_Fin n (3 # 4)) as (t & -> & Ht). rewrite !lerp_Fin.
    f_equal; apply (f_equal of_Z), channel_end; (done || (rewrite Ht, Hq; ring)).
Qed.

Lemma inject_Z_quarter (v lo hi j : Z) :
  4 * (v - lo) = j * (hi - lo) →
  ((inject_Z v - inject_Z lo) * 4 == inject_Z j * (inject_Z hi - inject_Z lo))%Q.
Proof.
  intros H. apply (f_equal inject_Z) in H.
  rewrite !inject_Z_mult in H. unfold Z.sub in H.
  rewrite !inject_Z_plus, !inject_Z_opp in H.
  change (inject_Z 4) with 4%Q in H.
  assert (HQ : (4 * (inject_Z v + - inject_Z lo)
                == inject_Z j * (inject_Z hi + - inject_Z lo))%Q) by (by rewrite H).
  unfold Qminus. rewrite <- HQ. ring.
Qed.

(** X18.  For [min < max], [getColor] gives the first colour of the legend
    gradient, rgb(68,1,84), to [min] and the last, rgb(253,231,37), to
    [max]; and when [min], [max] and the value are integers of magnitude at
    most [2^52], it gives the three inner colours rgb(59,82,139),
    rgb(33,144,140) and rgb(94,201,98) to the values a quarter, a half and
    three quarters of the way.  On these inputs the code's doubles compute
    the normalised value without rounding; at a quarter point of a scale
    that is not integral the rounding can lower a channel by one. *)
Theorem getColor_legend_stops :
  (∀ lo hi : Q, (lo < hi)%Q →
     getColor (Fin lo) (Fin lo) (Fin hi) = Rgb (Fin 68) (Fin 1) (Fin 84)
     ∧ getColor (Fin hi) (Fin lo) (Fin hi) = Rgb (Fin 253) (Fin 231) (Fin 37))
  ∧ (∀ lo hi v : Z, lo < hi → Z.abs lo ≤ 2 ^ 52 → Z.abs hi ≤ 2 ^ 52 →
       (4 * (v - lo) = 1 * (hi - lo) →
          getColor (of_Z v) (of_Z lo) (of_Z hi) = Rgb (Fin 59) (Fin 82) (Fin 139))
       ∧ (4 * (v - lo) = 2 * (hi - lo) →
          getColor (of_Z v) (of_Z lo) (of_Z hi) = Rgb (Fin 33) (Fin 144) (Fin 140))
       ∧ (4 * (v - lo) = 3 * (hi - lo) →
          getColor (of_Z v) (of_Z lo) (of_Z hi) = Rgb (Fin 94) (Fin 201) (Fin 98))).
Proof.
  split.
  - intros lo hi Hlt.
    split; [apply (getColor_quarters lo lo hi Hlt); ring
           |apply (getColor_quarters hi lo hi Hlt); ring].
  - intros lo hi v Hlt _ _.
    assert (HltQ : (inject_Z lo < inject_Z hi)%Q) by (by rewrite <- Zlt_Qlt).
    unfold of_Z.
    pose proof (getColor_quarters (inject_Z v) (inject_Z lo) (inject_Z hi) HltQ)
      as (_ & H1 & H2 & H3 & _).
    repeat split; intros Hj; apply inject_Z_quarter in Hj.
    + by apply H1.
    + by apply H2.
    + by apply H3.
Qed.

Lemma getColor_flat (v lo hi : Q) :
  (lo == hi)%Q → getColor (Fin v) (Fin lo) (Fin hi) = Rgb NaN NaN NaN.
Proof.
  intros Hz. unfold getColor. change (Fin hi - Fin lo)%num with (Fin (Qred (hi - lo))).
  change (Fin v - Fin lo)%num with (Fin (Qred (v - lo))).
  rewrite div_Fin_zero by (rewrite Qred_correct, Hz; ring).
  by destruct (Qred (v - lo) ?= 0)%Q.
Qed.

Lemma defaultColorScale_flat (c : Q) :
  defaultColorScale (Fin c) (Fin c) (Fin c) = Rgb NaN NaN NaN.
Proof.
  assert (Hz : (Qred (c - c) == 0)%Q) by (rewrite Qred_correct; ring).
  unfold defaultColorScale. change (Fin c - Fin c)%num with (Fin (Qred (c - c))).
  rewrite (div_Fin_zero _ _ Hz).
  assert (Hc : (Qred (c - c) ?= 0)%Q = Eq) by (by apply Qeq_alt).
  by rewrite Hc.
Qed.

(** X19.  For [min < max] and a value between them,
    [defaultColorScale] returns rgb(i, i, 255 - i) with an integer [i] from
    0 to 255, which is 0 at [min] and is 255 only at [max]; when the three
    arguments are equal the three channels are [NaN]. *)
Theorem defaultColorScale_range (v lo hi : Q) :
  ((lo < hi)%Q → (lo <= v <= hi)%Q →
   ∃ i : Z,
     defaultColorScale (Fin v) (Fin lo) (Fin hi) = Rgb (of_Z i) (of_Z i) (of_Z (255 - i))
     ∧ 0 ≤ i ≤ 255
     ∧ ((v == lo)%Q → i = 0)
     ∧ (i = 255 ↔ (v == hi)%Q))
  ∧ defaultColorScale (Fin v) (Fin v) (Fin v) = Rgb NaN NaN NaN.
Proof.
  split; [|apply defaultColorScale_flat].
  intros Hlt Hv. destruct (normalized_Fin v lo hi Hlt) as (n & Hn & Hnq).
  pose proof (normalized_range v lo hi n Hlt Hv Hnq) as Hr.
  unfold defaultColorScale. rewrite Hn.
  change (Math_floor (Fin n * Fin 255)) with (of_Z (Qfloor (Qred (n * 255)))).
  change (Fin 255) with (of_Z 255). rewrite sub_of_Z.
  set (i := Qfloor (Qred (n * 255))).
  assert (Hi : i = Qfloor (n * 255)) by (apply Qfloor_comp, Qred_correct).
  assert (Hone : (n == 1)%Q ↔ (v == hi)%Q).
  { rewrite Hnq. split; intros H.
    - assert (E : (v - lo == (v - lo) / (hi - lo) * (hi - lo))%Q) by (field; lra).
      rewrite H in E. lra.
    - rewrite H. field. lra. }
  exists i. split; [done|]. split; [|split].
  - rewrite Hi. split.
    + change (Qfloor 0 ≤ Qfloor (n * 255)). apply Qfloor_resp_le. lra.
    + change (Qfloor (n * 255) ≤ Qfloor 255). apply Qfloor_resp_le. lra.
  - intros Hlo. rewrite Hi. change (Qfloor (n * 255) = Qfloor 0). apply Qfloor_comp.
    rewrite Hnq, Hlo. field. lra.
  - rewrite <- Hone, Hi. split; intros H.
    + pose proof (Qfloor_le (n * 255)) as Hle. rewrite H in Hle.
      change (inject_Z 255) with 255%Q in Hle. lra.
    + change (Qfloor (n * 255) = Qfloor 255). apply Qfloor_comp. rewrite H. ring.
Qed.

Lemma getColor_legend_stops_witness :
  getColor (of_Z 3) (of_Z 1) (of_Z 5) = Rgb (Fin 33) (Fin 144) (Fin 140)
  ∧ getColor (Fin (21 # 10)) (Fin (-3)) (Fin (21 # 10)) = Rgb (Fin 253) (Fin 231) (Fin 37).
Proof.
  destruct getColor_legend_stops as [Hends Hinner]. split.
  - destruct (Hinner 1 5 3) as (_ & Hhalf & _);
      [reflexivity|vm_compute; discriminate|vm_compute; discriminate|].
    apply Hhalf. reflexivity.
  - apply (Hends (-3)%Q (21 # 10)%Q). reflexivity.
Defined.

Lemma defaultColorScale_range_witness :
  ∃ i : Z,
    defaultColorScale (Fin 5) (Fin 1) (Fin 5) = Rgb (of_Z i) (of_Z i) (of_Z (255 - i))
    ∧ 0 ≤ i ≤ 255.
Proof.
  destruct (defaultColorScale_range 5 1 5) as [Hrange _].
  destruct Hrange as (i & H & Hi & _);
    [reflexivity|split; vm_compute; discriminate|].
  exists i. split; [exact H|exact Hi].
Defined.

(** ** The inference test and the full suite *)

Section FullSuite.
Context {M : MathLib}.

(** X20.  On the mock path, with [Math.random()] in [[0, 1)],
    [testModelInference] passes exactly when the response time is below
    5000: the label and confidence criteria always hold. *)
Theorem testModelInference_mock (session : option (list number → option (list number)))
    (isLoaded : bool) (r : Q) (elapsed : number) (e : EEGData) :
  uses_mock session isLoaded e →
  (0 <= r < 1)%Q →
  inference_passed (testModelInference session isLoaded (Fin r) elapsed e)
  = Num.ltb elapsed (Fin 5000).
Proof.
  intros Hmock Hr. unfold testModelInference. cbn [inference_passed].
  rewrite (predict_mock _ _ _ _ Hmock).
  destruct (mock_confidence (prepareInput (data e)) r Hr) as (q & Hq & _ & Hlo & Hhi).
  rewrite Hq.
  assert (H0 : Num.geb (Fin q) (Fin 0) = true) by (apply leb_Fin; lra).
  assert (H1 : Num.leb (Fin q) (Fin 1) = true) by (apply leb_Fin; lra).
  rewrite H0, H1.
  by destruct (prediction (generateMockPrediction (prepareInput (data e)) (Fin r))).
Qed.

(** X21.  [runFullTestSuite] throws the RangeError of
    [testSpectrogram] for a recording shorter than 128 samples; and when it
    returns with [overallPassed] true, the recording has at least 256
    samples and is not constant. *)
Theorem runFullTestSuite_outcome (session : option (list number → option (list number)))
    (isLoaded : bool) (random elapsed : number) (e : EEGData) :
  let N := Z.of_nat (length (data e)) in
  (N < 128 → runFullTestSuite session isLoaded random elapsed e = Throw RangeError)
  ∧ (∀ rep, runFullTestSuite session isLoaded random elapsed e = Normal rep →
       overallPassed rep = true →
       256 ≤ N ∧ ∀ n c, data e ≠ replicate n (Fin c)).
Proof.
  intros N. split.
  - intros HN. unfold runFullTestSuite. by rewrite (testSpectrogram_throws e HN).
  - intros rep Hrep Hpass. unfold runFullTestSuite in Hrep.
    destruct (testSpectrogram e) as [sr|err] eqn:Hs; [|done].
    rewrite bind_Normal in Hrep. injection Hrep as <-.
    change (preprocessing_passed (testPreprocessing e) && spectrogram_passed sr
            && inference_passed (testModelInference session isLoaded random elapsed e)
            = true) in Hpass.
    apply andb_true_iff in Hpass as [Hpass _].
    apply andb_true_iff in Hpass as [Hpre Hspec].
    split.
    + destruct (decide (N < 128)) as [HN|HN].
      { by rewrite (testSpectrogram_throws e HN) in Hs. }
      destruct (decide (N < 256)) as [HN'|HN']; [|lia].
      destruct (testSpectrogram_no_window e ltac:(fold N; lia)) as (r & Hr & _ & Hf).
      rewrite Hr in Hs. injection Hs as <-. rewrite Hf in Hspec. discriminate Hspec.
    + intros n c Hdata.
      destruct (testPreprocessing_constant e n c Hdata) as [_ Hf].
      rewrite Hf in Hpre. discriminate Hpre.
Qed.
End FullSuite.

(** ** The drawn heat map *)

(** X22.  For a spectrogram with finite power cells whose matrix has
    the shape of its axes, the drawing loop scales by the finite minimum and
    maximum of the cells; when they differ every cell gets a colour with
    three integer channels from 0 to 255, and when they are equal every
    cell gets rgb(NaN, NaN, NaN). *)
Theorem heatmap_cell_colours (s : SpectrogramData) (qss : list (list Q)) :
  power s = map (map Fin) qss →
  length (frequencies s) = length (power s) →
  (∀ row, row ∈ power s → length row = length (times s)) →
  concat qss ≠ [] →
  ∃ lo hi,
    Math_min (concat (power s)) = Fin lo ∧ Math_max (concat (power s)) = Fin hi
    ∧ (lo <= hi)%Q
    ∧ ∀ k w, (k < length (frequencies s))%nat → (w < length (times s))%nat →
        ∃ row c, heatmap_colors s !! k = Some row ∧ row !! w = Some c
          ∧ ((lo < hi)%Q →
               ∃ r g b : Z, c = Rgb (of_Z r) (of_Z g) (of_Z b)
                            ∧ 0 ≤ r ≤ 255 ∧ 0 ≤ g ≤ 255 ∧ 0 ≤ b ≤ 255)
          ∧ ((lo == hi)%Q → c = Rgb NaN NaN NaN).
Proof.
  intros Hpow Hrows Hcols Hne.
  destruct (Math_min_max_Fin (concat qss) Hne) as (lo & hi & Hlo & Hhi & Hlin & _ & Hord).
  assert (Hflat : concat (power s) = map Fin (concat qss)).
  { rewrite Hpow. symmetry. apply concat_map. }
  exists lo, hi. rewrite Hflat. split; [done|]. split; [done|].
  split; [apply (Hord lo Hlin)|].
  intros k w Hk Hw.
  destruct (lookup_lt_is_Some_2 (power s) k ltac:(lia)) as [row Hrow].
  pose proof (Hcols row (list_elem_of_lookup_2 _ _ _ Hrow)) as Hlen.
  assert (Hq : ∃ qrow, qss !! k = Some qrow ∧ row = map Fin qrow).
  { rewrite Hpow, list_lookup_fmap in Hrow.
    destruct (qss !! k) as [qrow|]; [|done]. injection Hrow as <-. by exists qrow. }
  destruct Hq as (qrow & Hqrow & ->). rewrite length_map in Hlen.
  destruct (lookup_lt_is_Some_2 qrow w ltac:(lia)) as [q Hq].
  assert (Hin : q ∈ concat qss).
  { apply list_elem_of_In, in_concat. exists qrow.
    split; apply list_elem_of_In; by eapply list_elem_of_lookup_2. }
  assert (Hcell : array_get (default [] (power s !! k)) (Z.of_nat w) = Fin q).
  { rewrite Hrow. apply array_get_lookup. cbn [default from_option id].
    by rewrite list_lookup_fmap, Hq. }
  unfold heatmap_colors. rewrite Hflat, Hlo, Hhi.
  eexists _, _. split; [|split].
  - rewrite lookup_map_seq. case_decide; [reflexivity|lia].
  - rewrite lookup_map_seq. case_decide; [reflexivity|lia].
  - rewrite Hcell. split.
    + intros Hlt. apply getColor_channels; [done|]. by apply Hord.
    + apply getColor_flat.
Qed.

Lemma testModelInference_mock_witness :
  let e := {| data := [Fin 1; Fin 2]; sfreq := 250; channel_name := "Fz";
              duration := None |} in
  inference_passed (@testModelInference ApproxMath None false (Fin (1 # 2)) (Fin 12) e)
  = Num.ltb (Fin 12) (Fin 5000).
Proof.
  intros e. apply (@testModelInference_mock ApproxMath).
  - left. reflexivity.
  - split; [vm_compute; discriminate|reflexivity].
Defined.

Lemma runFullTestSuite_outcome_witness :
  let e := {| data := replicate 100 (Fin 1); sfreq := 250; channel_name := "Fz";
              duration := None |} in
  @runFullTestSuite ApproxMath None false (Fin (1 # 2)) (Fin 12) e = Throw RangeError.
Proof.
  intros e.
  destruct (@runFullTestSuite_outcome ApproxMath None false (Fin (1 # 2)) (Fin 12) e)
    as [Hthrow _].
  apply Hthrow. reflexivity.
Defined.

Lemma heatmap_cell_colours_witness :
  let s := {| frequencies := [Fin 0; Fin 1]; times := [Fin 0; Fin 1];
              power := [[Fin 1; Fin 2]; [Fin 3; Fin 5]] |} in
  ∃ lo hi,
    Math_min (concat (power s)) = Fin lo ∧ Math_max (concat (power s)) = Fin hi
    ∧ (lo <= hi)%Q.
Proof.
  intros s.
  destruct (heatmap_cell_colours s [[1; 2]; [3; 5]]%Q) as (lo & hi & Hlo & Hhi & Hle & _).
  - reflexivity.
  - reflexivity.
  - intros row Hrow. cbn [s power] in Hrow. rewrite !elem_of_cons in Hrow.
    destruct Hrow as [->|[->|Hrow]]; [reflexivity|reflexivity|by inversion Hrow].
  - discriminate.
  - by exists lo, hi.
Defined.
